(** * The reset and backup workflow of firmware/reset.c

    A shallow embedding of [reset_init], [reset_entropy] and [reset_backup]
    with the file's static variables as an explicit state, the calls to the
    other firmware modules recorded in a trace, and the answers of the user,
    the random number generator and the storage taken from an environment. *)

From Stdlib Require Import List ZArith Bool Arith Lia.
From Stdlib Require Import Strings.Ascii Strings.String Strings.Byte.
Import ListNotations.

Local Open Scope string_scope.
Local Open Scope list_scope.
Local Open Scope Z_scope.

(** ** Messages and trace of collaborator calls *)

Inductive FailureType : Type :=
| FailureType_Failure_UnexpectedMessage
| FailureType_Failure_ActionCancelled
| FailureType_Failure_ProcessError.

Inductive ButtonRequestType : Type :=
| ButtonRequestType_ButtonRequest_ProtectCall
| ButtonRequestType_ButtonRequest_ResetDevice
| ButtonRequestType_ButtonRequest_ConfirmWord.

Inductive icon : Type := bmp_icon_question | bmp_icon_info.

(** One constructor per function of another module that reset.c calls and
    that acts on the outside world; the trace lists them in call order. *)
Inductive event : Type :=
| SendFailure (code : FailureType) (text : option string)
| SendSuccess (text : string)
| LayoutHome
| LayoutDialogSwipe (ic : icon) (btnNo btnYes : string) (desc : option string)
    (lines : list (option string))
| LayoutResetWord (word : list ascii) (pass word_pos : nat) (last : bool)
| ProtectButton (type : ButtonRequestType) (confirm_only : bool)
| ProtectChangePin (removal : bool)
| RandomBuffer (len : nat)
| MnemonicFromData (data : list byte)
| MnemonicClear
| SessionClear (lock : bool)
| MsgWriteEntropyRequest
| ConfigSetPassphraseProtection (b : bool)
| ConfigSetLanguage (lang : option string)
| ConfigSetLabel (label : option string)
| ConfigSetU2FCounter (n : Z)
| ConfigSetNoBackup
| ConfigSetNeedsBackup (b : bool)
| ConfigSetUnfinishedBackup (b : bool)
| ConfigSetMnemonic (mnemonic : list ascii).

(** ** State *)

(** The part of the configuration store that reset.c reads or writes. *)
Record config_store : Type := {
  cfg_passphrase_protection : bool;
  cfg_language : option string;
  cfg_label : option string;
  cfg_u2f_counter : Z;
  cfg_no_backup : bool;
  cfg_needs_backup : bool;
  cfg_unfinished_backup : bool;
  cfg_mnemonic : option (list ascii);
  cfg_has_pin : bool
}.

(** The static variables of reset.c ([strength] .. [current_word]), the
    configuration store, the trace, and how many answers have been taken from
    the environment so far. *)
Record state : Type := {
  strength : Z;
  int_entropy : list byte;
  awaiting_entropy : bool;
  skip_backup : bool;
  no_backup : bool;
  current_word : list ascii;
  config : config_store;
  trace : list event;
  buttons_asked : nat;
  random_drawn : nat;
  pins_asked : nat
}.

Definition sizeof_int_entropy : nat := 32.
Definition sizeof_current_word : nat := 10.

Definition NUL : ascii := Ascii.zero.
Definition SPACE : ascii := " "%char.

Definition empty_config : config_store :=
  {| cfg_passphrase_protection := false; cfg_language := None;
     cfg_label := None; cfg_u2f_counter := 0; cfg_no_backup := false;
     cfg_needs_backup := false; cfg_unfinished_backup := false;
     cfg_mnemonic := None; cfg_has_pin := false |}.

(** The statics as the C start-up code leaves them: zero-initialised. *)
Definition initial_state : state :=
  {| strength := 0;
     int_entropy := repeat x00 sizeof_int_entropy;
     awaiting_entropy := false;
     skip_backup := false;
     no_backup := false;
     current_word := repeat NUL sizeof_current_word;
     config := empty_config;
     trace := [];
     buttons_asked := 0; random_drawn := 0; pins_asked := 0 |}.

Definition set_strength (v : Z) (st : state) : state :=
  {| strength := v; int_entropy := int_entropy st;
     awaiting_entropy := awaiting_entropy st; skip_backup := skip_backup st;
     no_backup := no_backup st; current_word := current_word st;
     config := config st; trace := trace st;
     buttons_asked := buttons_asked st; random_drawn := random_drawn st;
     pins_asked := pins_asked st |}.

Definition set_int_entropy (v : list byte) (st : state) : state :=
  {| strength := strength st; int_entropy := v;
     awaiting_entropy := awaiting_entropy st; skip_backup := skip_backup st;
     no_backup := no_backup st; current_word := current_word st;
     config := config st; trace := trace st;
     buttons_asked := buttons_asked st; random_drawn := random_drawn st;
     pins_asked := pins_asked st |}.

Definition set_awaiting_entropy (v : bool) (st : state) : state :=
  {| strength := strength st; int_entropy := int_entropy st;
     awaiting_entropy := v; skip_backup := skip_backup st;
     no_backup := no_backup st; current_word := current_word st;
     config := config st; trace := trace st;
     buttons_asked := buttons_asked st; random_drawn := random_drawn st;
     pins_asked := pins_asked st |}.

Definition set_skip_backup (v : bool) (st : state) : state :=
  {| strength := strength st; int_entropy := int_entropy st;
     awaiting_entropy := awaiting_entropy st; skip_backup := v;
     no_backup := no_backup st; current_word := current_word st;
     config := config st; trace := trace st;
     buttons_asked := buttons_asked st; random_drawn := random_drawn st;
     pins_asked := pins_asked st |}.

Definition set_no_backup (v : bool) (st : state) : state :=
  {| strength := strength st; int_entropy := int_entropy st;
     awaiting_entropy := awaiting_entropy st; skip_backup := skip_backup st;
     no_backup := v; current_word := current_word st;
     config := config st; trace := trace st;
     buttons_asked := buttons_asked st; random_drawn := random_drawn st;
     pins_asked := pins_asked st |}.

Definition set_current_word (v : list ascii) (st : state) : state :=
  {| strength := strength st; int_entropy := int_entropy st;
     awaiting_entropy := awaiting_entropy st; skip_backup := skip_backup st;
     no_backup := no_backup st; current_word := v;
     config := config st; trace := trace st;
     buttons_asked := buttons_asked st; random_drawn := random_drawn st;
     pins_asked := pins_asked st |}.

Definition set_config (v : config_store) (st : state) : state :=
  {| strength := strength st; int_entropy := int_entropy st;
     awaiting_entropy := awaiting_entropy st; skip_backup := skip_backup st;
     no_backup := no_backup st; current_word := current_word st;
     config := v; trace := trace st;
     buttons_asked := buttons_asked st; random_drawn := random_drawn st;
     pins_asked := pins_asked st |}.

(** [emit e] appends a call to the trace. *)
Definition emit (e : event) (st : state) : state :=
  {| strength := strength st; int_entropy := int_entropy st;
     awaiting_entropy := awaiting_entropy st; skip_backup := skip_backup st;
     no_backup := no_backup st; current_word := current_word st;
     config := config st; trace := trace st ++ [e];
     buttons_asked := buttons_asked st; random_drawn := random_drawn st;
     pins_asked := pins_asked st |}.

Definition tick_buttons (st : state) : state :=
  {| strength := strength st; int_entropy := int_entropy st;
     awaiting_entropy := awaiting_entropy st; skip_backup := skip_backup st;
     no_backup := no_backup st; current_word := current_word st;
     config := config st; trace := trace st;
     buttons_asked := S (buttons_asked st); random_drawn := random_drawn st;
     pins_asked := pins_asked st |}.

Definition tick_random (n : nat) (st : state) : state :=
  {| strength := strength st; int_entropy := int_entropy st;
     awaiting_entropy := awaiting_entropy st; skip_backup := skip_backup st;
     no_backup := no_backup st; current_word := current_word st;
     config := config st; trace := trace st;
     buttons_asked := buttons_asked st; random_drawn := (random_drawn st + n)%nat;
     pins_asked := pins_asked st |}.

Definition tick_pins (st : state) : state :=
  {| strength := strength st; int_entropy := int_entropy st;
     awaiting_entropy := awaiting_entropy st; skip_backup := skip_backup st;
     no_backup := no_backup st; current_word := current_word st;
     config := config st; trace := trace st;
     buttons_asked := buttons_asked st; random_drawn := random_drawn st;
     pins_asked := S (pins_asked st) |}.

(** ** C strings and buffers *)

(** [m[i]] for a NUL-terminated string held as the list of its characters:
    the terminator is read at index [length m]. *)
Definition char_at (m : list ascii) (i : nat) : ascii := nth i m NUL.

(** [buf[j] = c] for [j] within the buffer. *)
Fixpoint store (buf : list ascii) (j : nat) (c : ascii) : list ascii :=
  match buf, j with
  | [], _ => []
  | _ :: buf', O => c :: buf'
  | b :: buf', S j' => b :: store buf' j' c
  end.

(** The string a reader of the buffer sees: the characters before the first NUL. *)
Fixpoint c_str (buf : list ascii) : list ascii :=
  match buf with
  | [] => []
  | c :: buf' => if Ascii.eqb c NUL then [] else c :: c_str buf'
  end.

(** [memzero(buf, n)] on a byte buffer. *)
Definition memzero (buf : list byte) (n : nat) : list byte :=
  repeat x00 (Nat.min n (List.length buf)) ++ skipn n buf.

(** ** Collaborators *)

(** The deterministic primitives reset.c takes from sha2.c, bip39.c and
    util.c. Their sources are not part of this file's unit, so they are an
    interface; the digest is 32 bytes long (SHA256_DIGEST_LENGTH). *)
Class Primitives : Type := {
  sha256_Raw : list byte -> list byte;
  sha256_Raw_length : forall msg, List.length (sha256_Raw msg) = 32%nat;
  bip39_mnemonic : list byte -> list ascii;
  data2hex : list byte -> string
}.

(** What the outside decides: the answer to the k-th button request, the k-th
    byte of the random number generator, whether the k-th PIN change
    succeeds, and whether the storage accepts a mnemonic. *)
Record environment : Type := {
  button_answer : nat -> bool;
  random_byte : nat -> byte;
  pin_change_ok : nat -> bool;
  storage_accepts : list ascii -> bool
}.

Section Reset.

Context {prims : Primitives}.
Variable env : environment.

(** *** messages.h, fsm.h, layout2.h *)

Definition fsm_sendFailure (code : FailureType) (text : option string)
  (st : state) : state := emit (SendFailure code text) st.

Definition fsm_sendSuccess (text : string) (st : state) : state :=
  emit (SendSuccess text) st.

Definition layoutHome (st : state) : state := emit LayoutHome st.

Definition layoutDialogSwipe (ic : icon) (btnNo btnYes : string)
  (desc : option string) (lines : list (option string)) (st : state) : state :=
  emit (LayoutDialogSwipe ic btnNo btnYes desc lines) st.

Definition layoutResetWord (word : list ascii) (pass word_pos : nat)
  (last : bool) (st : state) : state :=
  emit (LayoutResetWord word pass word_pos last) st.

Definition msg_write_EntropyRequest (st : state) : state :=
  emit MsgWriteEntropyRequest st.

(** *** protect.h *)

(** [protectButton] blocks until the user answers; the answer is the
    environment's. *)
Definition protectButton (type : ButtonRequestType) (confirm_only : bool)
  (st : state) : bool * state :=
  (button_answer env (buttons_asked st),
   tick_buttons (emit (ProtectButton type confirm_only) st)).

(** Modelled from the spec: [protectChangePin] of protect.c, which is not
    under src/. "Delegates to the PIN-setup collaborator; failure there aborts
    the whole flow": it reports success or failure, and on success the store
    holds a PIN. *)
Definition protectChangePin (removal : bool) (st : state) : bool * state :=
  let ok := pin_change_ok env (pins_asked st) in
  let st := tick_pins (emit (ProtectChangePin removal) st) in
  if ok then
    let c := config st in
    (true,
     set_config
       {| cfg_passphrase_protection := cfg_passphrase_protection c;
          cfg_language := cfg_language c; cfg_label := cfg_label c;
          cfg_u2f_counter := cfg_u2f_counter c;
          cfg_no_backup := cfg_no_backup c;
          cfg_needs_backup := cfg_needs_backup c;
          cfg_unfinished_backup := cfg_unfinished_backup c;
          cfg_mnemonic := cfg_mnemonic c;
          cfg_has_pin := negb removal |} st)
  else (false, st).

(** *** rng.h, sha2.h, bip39.h *)

(** [random_buffer(buf, len)]: the next [len] bytes of the generator. *)
Definition random_buffer (len : nat) (st : state) : list byte * state :=
  (map (random_byte env) (seq (random_drawn st) len),
   tick_random len (emit (RandomBuffer len) st)).

(** Modelled from the spec: the digest primitive of sha2.c, which is not under
    src/. "hash(bytes) -> 32 bytes, deterministic": a context accumulates the
    bytes it is updated with and the final digest is that of their
    concatenation. *)
Definition SHA256_CTX : Type := list byte.
Definition sha256_Init : SHA256_CTX := [].
Definition sha256_Update (ctx : SHA256_CTX) (data : list byte) (len : nat)
  : SHA256_CTX := ctx ++ firstn len data.
Definition sha256_Final (ctx : SHA256_CTX) : list byte := sha256_Raw ctx.

(** [mnemonic_from_data(data, len)] reads the first [len] bytes of [data]. *)
Definition mnemonic_from_data (data : list byte) (len : nat) (st : state)
  : list ascii * state :=
  (bip39_mnemonic (firstn len data), emit (MnemonicFromData (firstn len data)) st).

Definition mnemonic_clear (st : state) : state := emit MnemonicClear st.

(** *** config.h *)

Definition session_clear (lock : bool) (st : state) : state :=
  emit (SessionClear lock) st.

Definition config_setPassphraseProtection (b : bool) (st : state) : state :=
  let c := config st in
  emit (ConfigSetPassphraseProtection b)
    (set_config
       {| cfg_passphrase_protection := b;
          cfg_language := cfg_language c; cfg_label := cfg_label c;
          cfg_u2f_counter := cfg_u2f_counter c;
          cfg_no_backup := cfg_no_backup c;
          cfg_needs_backup := cfg_needs_backup c;
          cfg_unfinished_backup := cfg_unfinished_backup c;
          cfg_mnemonic := cfg_mnemonic c; cfg_has_pin := cfg_has_pin c |} st).

Definition config_setLanguage (lang : option string) (st : state) : state :=
  let c := config st in
  emit (ConfigSetLanguage lang)
    (set_config
       {| cfg_passphrase_protection := cfg_passphrase_protection c;
          cfg_language := lang; cfg_label := cfg_label c;
          cfg_u2f_counter := cfg_u2f_counter c;
          cfg_no_backup := cfg_no_backup c;
          cfg_needs_backup := cfg_needs_backup c;
          cfg_unfinished_backup := cfg_unfinished_backup c;
          cfg_mnemonic := cfg_mnemonic c; cfg_has_pin := cfg_has_pin c |} st).

Definition config_setLabel (label : option string) (st : state) : state :=
  let c := config st in
  emit (ConfigSetLabel label)
    (set_config
       {| cfg_passphrase_protection := cfg_passphrase_protection c;
          cfg_language := cfg_language c; cfg_label := label;
          cfg_u2f_counter := cfg_u2f_counter c;
          cfg_no_backup := cfg_no_backup c;
          cfg_needs_backup := cfg_needs_backup c;
          cfg_unfinished_backup := cfg_unfinished_backup c;
          cfg_mnemonic := cfg_mnemonic c; cfg_has_pin := cfg_has_pin c |} st).

Definition config_setU2FCounter (n : Z) (st : state) : state :=
  let c := config st in
  emit (ConfigSetU2FCounter n)
    (set_config
       {| cfg_passphrase_protection := cfg_passphrase_protection c;
          cfg_language := cfg_language c; cfg_label := cfg_label c;
          cfg_u2f_counter := n;
          cfg_no_backup := cfg_no_backup c;
          cfg_needs_backup := cfg_needs_backup c;
          cfg_unfinished_backup := cfg_unfinished_backup c;
          cfg_mnemonic := cfg_mnemonic c; cfg_has_pin := cfg_has_pin c |} st).

Definition config_setNoBackup (st : state) : state :=
  let c := config st in
  emit ConfigSetNoBackup
    (set_config
       {| cfg_passphrase_protection := cfg_passphrase_protection c;
          cfg_language := cfg_language c; cfg_label := cfg_label c;
          cfg_u2f_counter := cfg_u2f_counter c;
          cfg_no_backup := true;
          cfg_needs_backup := cfg_needs_backup c;
          cfg_unfinished_backup := cfg_unfinished_backup c;
          cfg_mnemonic := cfg_mnemonic c; cfg_has_pin := cfg_has_pin c |} st).

Definition config_setNeedsBackup (b : bool) (st : state) : state :=
  let c := config st in
  emit (ConfigSetNeedsBackup b)
    (set_config
       {| cfg_passphrase_protection := cfg_passphrase_protection c;
          cfg_language := cfg_language c; cfg_label := cfg_label c;
          cfg_u2f_counter := cfg_u2f_counter c;
          cfg_no_backup := cfg_no_backup c;
          cfg_needs_backup := b;
          cfg_unfinished_backup := cfg_unfinished_backup c;
          cfg_mnemonic := cfg_mnemonic c; cfg_has_pin := cfg_has_pin c |} st).

Definition config_setUnfinishedBackup (b : bool) (st : state) : state :=
  let c := config st in
  emit (ConfigSetUnfinishedBackup b)
    (set_config
       {| cfg_passphrase_protection := cfg_passphrase_protection c;
          cfg_language := cfg_language c; cfg_label := cfg_label c;
          cfg_u2f_counter := cfg_u2f_counter c;
          cfg_no_backup := cfg_no_backup c;
          cfg_needs_backup := cfg_needs_backup c;
          cfg_unfinished_backup := b;
          cfg_mnemonic := cfg_mnemonic c; cfg_has_pin := cfg_has_pin c |} st).

Definition config_getNeedsBackup (st : state) : bool :=
  cfg_needs_backup (config st).

(** Modelled from the spec: [config_setMnemonic] of config.c, which is not
    under src/. "set_mnemonic(string) -> success|failure": when the storage
    accepts the string it becomes the stored mnemonic, otherwise nothing is
    written. *)
Definition config_setMnemonic (mnemonic : list ascii) (st : state)
  : bool * state :=
  let st := emit (ConfigSetMnemonic mnemonic) st in
  if storage_accepts env mnemonic then
    let c := config st in
    (true,
     set_config
       {| cfg_passphrase_protection := cfg_passphrase_protection c;
          cfg_language := cfg_language c; cfg_label := cfg_label c;
          cfg_u2f_counter := cfg_u2f_counter c;
          cfg_no_backup := cfg_no_backup c;
          cfg_needs_backup := cfg_needs_backup c;
          cfg_unfinished_backup := cfg_unfinished_backup c;
          cfg_mnemonic := Some mnemonic; cfg_has_pin := cfg_has_pin c |} st)
  else (false, st).

(** ** reset.c *)

Definition reset_init (display_random : bool) (_strength : Z)
  (passphrase_protection pin_protection : bool)
  (language label : option string) (u2f_counter : Z)
  (_skip_backup _no_backup : bool) (st : state) : state :=
  if negb (_strength =? 128) && negb (_strength =? 192)
     && negb (_strength =? 256)
  then st
  else
    let st := set_strength _strength st in
    let st := set_skip_backup _skip_backup st in
    let st := set_no_backup _no_backup st in
    if display_random && (skip_backup st || no_backup st) then
      let st := fsm_sendFailure FailureType_Failure_ProcessError
                  (Some "Can't show internal entropy when backup is skipped") st in
      layoutHome st
    else
      let st := layoutDialogSwipe bmp_icon_question "Cancel" "Confirm" None
                  [Some "Do you really want to"; Some "create a new wallet?";
                   None; Some "By continuing you";
                   Some "agree to trezor.io/tos"; None] st in
      let (ok, st) :=
        protectButton ButtonRequestType_ButtonRequest_ProtectCall false st in
      if negb ok then
        let st := fsm_sendFailure FailureType_Failure_ActionCancelled None st in
        layoutHome st
      else
        let (rnd, st) := random_buffer 32 st in
        let st := set_int_entropy (rnd ++ skipn 32 (int_entropy st)) st in
        let ent_str0 := data2hex (firstn 8 (int_entropy st)) in
        let ent_str1 := data2hex (firstn 8 (skipn 8 (int_entropy st))) in
        let ent_str2 := data2hex (firstn 8 (skipn 16 (int_entropy st))) in
        let ent_str3 := data2hex (firstn 8 (skipn 24 (int_entropy st))) in
        let shown :=
          if display_random then
            let st := layoutDialogSwipe bmp_icon_info "Cancel" "Continue" None
                        [Some "Internal entropy:"; Some ent_str0;
                         Some ent_str1; Some ent_str2; Some ent_str3; None] st in
            protectButton ButtonRequestType_ButtonRequest_ResetDevice false st
          else (true, st) in
        let (ok, st) := shown in
        if negb ok then
          let st := fsm_sendFailure FailureType_Failure_ActionCancelled None st in
          layoutHome st
        else
          let pin :=
            if pin_protection then protectChangePin false st else (true, st) in
          let (ok, st) := pin in
          if negb ok then layoutHome st
          else
            let st := config_setPassphraseProtection passphrase_protection st in
            let st := config_setLanguage language st in
            let st := config_setLabel label st in
            let st := config_setU2FCounter u2f_counter st in
            let st := msg_write_EntropyRequest st in
            set_awaiting_entropy true st.

(** How a loop body ends: fall through to the statement after it, or
    [return] from the function. *)
Inductive flow : Type :=
| Next (st : state)
| Return (st : state).

(** The inner loop of [reset_backup] (lines 150-153): copy characters of the
    word at [i] into [current_word] from [j] on. [None] when [fuel] iterations
    were not enough. *)
Fixpoint copy_current_word (fuel : nat) (mnemonic : list ascii) (i j : nat)
  (cw : list ascii) : option (nat * nat * list ascii) :=
  if negb (Ascii.eqb (char_at mnemonic i) SPACE)
     && negb (Ascii.eqb (char_at mnemonic i) NUL)
     && (j + 1 <? sizeof_current_word)%nat
  then
    match fuel with
    | O => None
    | S fuel' =>
        copy_current_word fuel' mnemonic (i + 1) (j + 1)
          (store cw j (char_at mnemonic i))
    end
  else Some (i, j, cw).

(** The loop over the words of one pass (lines 147-168). [int] counters are
    natural numbers: a mnemonic is far shorter than INT_MAX. *)
Fixpoint word_loop (fuel : nat) (separated : bool) (mnemonic : list ascii)
  (pass i word_pos : nat) (st : state) : option flow :=
  if Ascii.eqb (char_at mnemonic i) NUL then Some (Next st)
  else
    match fuel with
    | O => None
    | S fuel' =>
        match copy_current_word sizeof_current_word mnemonic i 0
                (current_word st) with
        | None => None
        | Some (i, j, cw) =>
            let st := set_current_word (store cw j NUL) st in
            let i := if negb (Ascii.eqb (char_at mnemonic i) NUL)
                     then (i + 1)%nat else i in
            let st := layoutResetWord (c_str (current_word st)) pass word_pos
                        (Ascii.eqb (char_at mnemonic i) NUL) st in
            let (ok, st) :=
              protectButton ButtonRequestType_ButtonRequest_ConfirmWord true st in
            if negb ok then
              let st := if negb separated then session_clear true st else st in
              let st := layoutHome st in
              let st := fsm_sendFailure FailureType_Failure_ActionCancelled
                          None st in
              Some (Return st)
            else word_loop fuel' separated mnemonic pass i (word_pos + 1) st
        end
    end.

(** The loop over the passes (lines 145-169). *)
Fixpoint pass_loop (fuel : nat) (separated : bool) (mnemonic : list ascii)
  (pass : nat) (st : state) : option flow :=
  if (pass <? 2)%nat then
    match fuel with
    | O => None
    | S fuel' =>
        match word_loop (List.length mnemonic) separated mnemonic pass 0 1 st with
        | Some (Next st) => pass_loop fuel' separated mnemonic (pass + 1) st
        | r => r
        end
    end
  else Some (Next st).

Definition reset_backup (separated : bool) (mnemonic : list ascii)
  (st : state) : option state :=
  let entry :=
    if separated then
      let needs_backup := config_getNeedsBackup st in
      if negb needs_backup then
        Return (fsm_sendFailure FailureType_Failure_UnexpectedMessage
                  (Some "Seed already backed up") st)
      else
        let st := config_setUnfinishedBackup true st in
        Next (config_setNeedsBackup false st)
    else Next st in
  match entry with
  | Return st => Some st
  | Next st =>
      match pass_loop 2 separated mnemonic 0 st with
      | None => None
      | Some (Return st) => Some st
      | Some (Next st) =>
          let st := config_setUnfinishedBackup false st in
          let st :=
            if separated then fsm_sendSuccess "Seed successfully backed up" st
            else
              let st := config_setNeedsBackup false st in
              let (ok, st) := config_setMnemonic mnemonic st in
              if ok then fsm_sendSuccess "Device successfully initialized" st
              else fsm_sendFailure FailureType_Failure_ProcessError
                     (Some "Failed to store mnemonic") st in
          Some (layoutHome st)
      end
  end.

Definition reset_entropy (ext_entropy : list byte) (len : nat) (st : state)
  : option state :=
  if negb (awaiting_entropy st) then
    Some (fsm_sendFailure FailureType_Failure_UnexpectedMessage
            (Some "Not in Reset mode") st)
  else
    let st := set_awaiting_entropy false st in
    let ctx := sha256_Init in
    let ctx := sha256_Update ctx (int_entropy st) 32 in
    let ctx := sha256_Update ctx ext_entropy len in
    let st := set_int_entropy (sha256_Final ctx) st in
    let (mnemonic, st) :=
      mnemonic_from_data (int_entropy st) (Z.to_nat (strength st / 8)) st in
    let st := set_int_entropy (memzero (int_entropy st) 32) st in
    let done :=
      if skip_backup st || no_backup st then
        let st := if no_backup st then config_setNoBackup st
                  else config_setNeedsBackup true st in
        let (ok, st) := config_setMnemonic mnemonic st in
        let st :=
          if ok then fsm_sendSuccess "Device successfully initialized" st
          else fsm_sendFailure FailureType_Failure_ProcessError
                 (Some "Failed to store mnemonic") st in
        Some (layoutHome st)
      else reset_backup false mnemonic st in
    match done with
    | None => None
    | Some st => Some (mnemonic_clear st)
    end.

End Reset.

(** *** reset.c, DEBUG_LINK *)

(** [reset_get_int_entropy(entropy)] copies the 32 bytes of [int_entropy]
    out and returns their number. *)
Definition reset_get_int_entropy (st : state) : list byte * Z :=
  (firstn 32 (int_entropy st), 32).

(** [reset_get_word()] returns the address of [current_word]: its caller
    reads the buffer as a C string. *)
Definition reset_get_word (st : state) : list ascii := current_word st.

(** ** Notions used to state the properties *)

Definition flow_state (r : flow) : state :=
  match r with Next st => st | Return st => st end.

(** [keeps st st']: [st'] has the session variables and the configuration of
    [st], and its trace continues that of [st]. The word buffer and the
    counters of the environment may differ. *)
Record keeps (st st' : state) : Prop := {
  keeps_strength : strength st' = strength st;
  keeps_int_entropy : int_entropy st' = int_entropy st;
  keeps_awaiting : awaiting_entropy st' = awaiting_entropy st;
  keeps_skip : skip_backup st' = skip_backup st;
  keeps_no : no_backup st' = no_backup st;
  keeps_config : config st' = config st;
  keeps_trace : exists evs, trace st' = trace st ++ evs
}.

(** What a [return] inside the word loop leaves at the end of the trace:
    the session is wiped unless the backup is a separate workflow, the home
    screen is laid out and the failure is sent. *)
Definition cancelled (separated : bool) (st st' : state) : Prop :=
  exists evs,
    trace st' = trace st ++ evs
                ++ (if separated then [] else [SessionClear true])
                ++ [LayoutHome;
                    SendFailure FailureType_Failure_ActionCancelled None].

(** Lines 141-142 of [reset_backup]: the store after the entry check of a
    separate backup. *)
Definition backup_entry (st : state) : state :=
  config_setNeedsBackup false (config_setUnfinishedBackup true st).

(** Lines 171-183 of [reset_backup]: what follows the two passes. *)
Definition backup_finish {prims : Primitives} (env : environment)
  (separated : bool) (mnemonic : list ascii) (st : state) : state :=
  let st := config_setUnfinishedBackup false st in
  let st :=
    if separated then fsm_sendSuccess "Seed successfully backed up" st
    else
      let st := config_setNeedsBackup false st in
      let (ok, st) := config_setMnemonic env mnemonic st in
      if ok then fsm_sendSuccess "Device successfully initialized" st
      else fsm_sendFailure FailureType_Failure_ProcessError
             (Some "Failed to store mnemonic") st in
  layoutHome st.

(** Lines 100-108 of [reset_entropy]: the entropy is mixed, the mnemonic
    derived and the buffer cleared. *)
Definition entropy_mixed {prims : Primitives} (ext_entropy : list byte)
  (len : nat) (st : state) : list ascii * state :=
  let st := set_awaiting_entropy false st in
  let ctx := sha256_Init in
  let ctx := sha256_Update ctx (int_entropy st) 32 in
  let ctx := sha256_Update ctx ext_entropy len in
  let st := set_int_entropy (sha256_Final ctx) st in
  let (mnemonic, st) :=
    mnemonic_from_data (int_entropy st) (Z.to_nat (strength st / 8)) st in
  (mnemonic, set_int_entropy (memzero (int_entropy st) 32) st).

(** Lines 116-121 of [reset_entropy]: the mnemonic is stored without a
    backup and the outcome reported. *)
Definition store_directly {prims : Primitives} (env : environment)
  (mnemonic : list ascii) (st : state) : state :=
  let (ok, st) := config_setMnemonic env mnemonic st in
  let st :=
    if ok then fsm_sendSuccess "Device successfully initialized" st
    else fsm_sendFailure FailureType_Failure_ProcessError
           (Some "Failed to store mnemonic") st in
  layoutHome st.

(** The calls a handler added to the trace. *)
Definition new_events (st st' : state) : list event :=
  skipn (List.length (trace st)) (trace st').

(** The settings a reset request carries. *)
Definition settings (c : config_store)
  : bool * option string * option string * Z :=
  (cfg_passphrase_protection c, cfg_language c, cfg_label c, cfg_u2f_counter c).

Definition writes_setting (e : event) : bool :=
  match e with
  | ConfigSetPassphraseProtection _ | ConfigSetLanguage _
  | ConfigSetLabel _ | ConfigSetU2FCounter _ => true
  | _ => false
  end.

Definition valid_strength (s : Z) : Prop := s = 128 \/ s = 192 \/ s = 256.

(** The session variables of reset.c other than the word buffer are the
    same in both states. *)
Definition keeps_session (st st' : state) : Prop :=
  strength st' = strength st /\ int_entropy st' = int_entropy st /\
  awaiting_entropy st' = awaiting_entropy st /\
  skip_backup st' = skip_backup st /\ no_backup st' = no_backup st.

(** What [backup_finish] adds to the trace. *)
Definition finish_events (env : environment) (separated : bool) (m : list ascii) : list event :=
  ConfigSetUnfinishedBackup false
  :: (if separated then [SendSuccess "Seed successfully backed up"]
      else [ConfigSetNeedsBackup false; ConfigSetMnemonic m;
            if storage_accepts env m
            then SendSuccess "Device successfully initialized"
            else SendFailure FailureType_Failure_ProcessError
                   (Some "Failed to store mnemonic")])
  ++ [LayoutHome].

(** The gates of [reset_init]: the request is well formed and the user, and
    the PIN set-up when asked for, let it through. *)
Definition gates_passed (env : environment) (display_random : bool) (_strength : Z)
  (pin_protection _skip_backup _no_backup : bool) (st : state) : Prop :=
  valid_strength _strength /\
  display_random && (_skip_backup || _no_backup) = false /\
  button_answer env (buttons_asked st) = true /\
  (display_random = true -> button_answer env (S (buttons_asked st)) = true) /\
  (pin_protection = true -> pin_change_ok env (pins_asked st) = true).

(** What holds of every state the handlers reach: the two buffers have
    their declared sizes, and a reset is pending only with a strength that
    [reset_init] accepted. *)
Definition well_formed (st : state) : Prop :=
  List.length (int_entropy st) = sizeof_int_entropy /\
  List.length (current_word st) = sizeof_current_word /\
  (awaiting_entropy st = true -> valid_strength (strength st)).

(** The space-delimited tokens of a mnemonic: every space closes the token
    before it, and what follows the last space is a token unless it is
    empty. *)
Fixpoint tokens (m : list ascii) : list (list ascii) :=
  match m with
  | [] => []
  | c :: m' =>
      if Ascii.eqb c SPACE then [] :: tokens m'
      else match tokens m' with
           | [] => [[c]]
           | w :: ws => (c :: w) :: ws
           end
  end.

(** What one pass shows and asks for the words [ws], the first of them at
    position [word_pos]: each word is laid out with the pass, its position and
    whether it is the last one, and then confirmed by a held button. *)
Fixpoint word_events (pass word_pos : nat) (ws : list (list ascii))
  : list event :=
  match ws with
  | [] => []
  | w :: ws' =>
      LayoutResetWord w pass word_pos (match ws' with [] => true | _ => false end)
      :: ProtectButton ButtonRequestType_ButtonRequest_ConfirmWord true
      :: word_events pass (word_pos + 1) ws'
  end.

(** A C string holds no NUL before its terminator. *)
Definition is_c_string (m : list ascii) : Prop := ~ In NUL m.

(** Every word leaves room for the terminator in [current_word]. *)
Definition words_fit (m : list ascii) : Prop :=
  Forall (fun w => (List.length w < sizeof_current_word)%nat) (tokens m).

(** [w] is what stands at some index of the text [m], over the length
    of [w]. *)
Definition piece_of (m w : list ascii) : Prop :=
  exists i, w = firstn (List.length w) (skipn i m).

(** What the word loop of [reset_backup] does between two checks of the
    user's answer: it lays out a word that fits the buffer, is free of
    spaces and NULs and stands in the mnemonic, or asks for the held
    confirmation. *)
Definition word_call (m : list ascii) (e : event) : Prop :=
  match e with
  | LayoutResetWord w _ _ _ =>
      (List.length w < sizeof_current_word)%nat /\ ~ In SPACE w /\
      ~ In NUL w /\ piece_of m w
  | ProtectButton ButtonRequestType_ButtonRequest_ConfirmWord true => True
  | _ => False
  end.

(** What the word loop adds when it ends: nothing when it falls through,
    lines 160-165 when a word is declined. *)
Definition loop_tail (separated : bool) (r : flow) : list event :=
  match r with
  | Next _ => []
  | Return _ =>
      (if separated then [] else [SessionClear true])
      ++ [LayoutHome; SendFailure FailureType_Failure_ActionCancelled None]
  end.

(** The word of the last [layoutResetWord] among the calls, if any. *)
Fixpoint last_shown (evs : list event) : option (list ascii) :=
  match evs with
  | [] => None
  | e :: evs' =>
      match last_shown evs' with
      | Some w => Some w
      | None => match e with
                | LayoutResetWord w _ _ _ => Some w
                | _ => None
                end
      end
  end.

(** The word buffer [cw'] after the calls [evs], started from [cw]: it holds
    the last word laid out, or is as it was when none was. *)
Definition tracks (cw : list ascii) (evs : list event) (cw' : list ascii)
  : Prop :=
  match last_shown evs with
  | Some w => c_str cw' = w
  | None => cw' = cw
  end.

(** The two calls of the word loop before it checks the user's answer: the
    layout of a word and the request to confirm it. *)
Definition shows_word (e : event) : bool :=
  match e with
  | LayoutResetWord _ _ _ _ => true
  | ProtectButton ButtonRequestType_ButtonRequest_ConfirmWord true => true
  | _ => false
  end.

(** The replies to the host. *)
Definition is_reply (e : event) : bool :=
  match e with
  | SendSuccess _ | SendFailure _ _ => true
  | _ => false
  end.

Definition entry_events (separated : bool) : list event :=
  if separated
  then [ConfigSetUnfinishedBackup true; ConfigSetNeedsBackup false]
  else [].

(** The bytes the generator yields from its [k]-th on. *)
Definition drawn (env : environment) (k n : nat) : list byte :=
  map (random_byte env) (seq k n).

(** The first gate of [reset_init]: the request is well formed and the user
    confirms the creation of the wallet. *)
Definition creation_confirmed (env : environment) (display_random : bool)
  (_strength : Z) (_skip_backup _no_backup : bool) (st : state) : Prop :=
  valid_strength _strength /\
  display_random && (_skip_backup || _no_backup) = false /\
  button_answer env (buttons_asked st) = true.

(** The lengths [mnemonic_from_data] accepts. *)
Definition entropy_length_ok (e : event) : Prop :=
  match e with
  | MnemonicFromData d =>
      List.length d = 16%nat \/ List.length d = 24%nat \/ List.length d = 32%nat
  | _ => True
  end.

(** The states the device reaches from power-up through calls of the three
    handlers. *)
Inductive reachable {prims : Primitives} (env : environment) : state -> Prop :=
| reachable_initial : reachable env initial_state
| reachable_init (display_random : bool) (_strength : Z)
    (passphrase_protection pin_protection : bool)
    (language label : option string) (u2f_counter : Z)
    (_skip_backup _no_backup : bool) (st : state) :
    reachable env st ->
    reachable env
      (reset_init env display_random _strength passphrase_protection
         pin_protection language label u2f_counter _skip_backup _no_backup st)
| reachable_entropy (ext : list byte) (st st' : state) :
    reachable env st ->
    reset_entropy env ext (List.length ext) st = Some st' ->
    reachable env st'
| reachable_backup (separated : bool) (m : list ascii) (st st' : state) :
    reachable env st ->
    reset_backup env separated m st = Some st' ->
    reachable env st'.

(** The flag [reset_entropy] writes before it stores the mnemonic without a
    backup (lines 111-115). *)
Definition mark_backup (st : state) : state :=
  if no_backup st then config_setNoBackup st
  else config_setNeedsBackup true st.

(** The environment [env] with a user who confirms every request. *)
Definition always_yes (env : environment) : environment :=
  {| button_answer := fun _ => true;
     random_byte := random_byte env;
     pin_change_ok := pin_change_ok env;
     storage_accepts := storage_accepts env |}.

(** ** A concrete instance, for running the model *)

Module Demo.

Definition hex_digit (n : nat) : ascii :=
  nth n (list_ascii_of_string "0123456789ABCDEF") "0"%char.

Definition demo_data2hex (data : list byte) : string :=
  string_of_list_ascii
    (flat_map (fun b => [hex_digit (Byte.to_nat b / 16);
                         hex_digit (Byte.to_nat b mod 16)]) data).

(** A stand-in digest of the right length: the reversed message, cut or
    zero-padded to 32 bytes. *)
Definition demo_digest (msg : list byte) : list byte :=
  firstn 32 (rev msg ++ repeat x00 32).

Definition demo_word (b : byte) : list ascii :=
  list_ascii_of_string
    (nth (Byte.to_nat b mod 4) ["abandon"; "zoo"; "wrong"; "ability"] "")%string.

Fixpoint join_words (ws : list (list ascii)) : list ascii :=
  match ws with
  | [] => []
  | [w] => w
  | w :: ws' => w ++ SPACE :: join_words ws'
  end.

Definition demo_mnemonic (data : list byte) : list ascii :=
  join_words (map demo_word data).

#[export] Instance demo_prims : Primitives.
Proof.
  refine {| sha256_Raw := demo_digest;
            sha256_Raw_length := _;
            bip39_mnemonic := demo_mnemonic;
            data2hex := demo_data2hex |}.
  intros msg; unfold demo_digest.
  rewrite length_firstn, length_app, repeat_length; lia.
Defined.

(** The user confirms everything but the [k]-th request (none when [k] is
    [None]); the generator yields 0xa5 bytes. *)
Definition demo_env (decline : option nat) (pin_ok store_ok : bool)
  : environment :=
  {| button_answer := fun k => match decline with
                               | Some d => negb (Nat.eqb k d)
                               | None => true
                               end;
     random_byte := fun _ => xa5;
     pin_change_ok := fun _ => pin_ok;
     storage_accepts := fun _ => store_ok |}.

Definition text (s : string) : list ascii := list_ascii_of_string s.

(** The user confirms everything; the PIN set-up and the store succeed. *)
Definition willing : environment := demo_env None true true.

(** A reset request without display of the entropy, confirmed by the user,
    with backup skipped: the device then awaits the host's entropy. *)
Definition awaiting_state : state :=
  reset_init willing false 128 false false None None 0 true false initial_state.

(** The same with neither skip_backup nor no_backup. *)
Definition awaiting_backup_state : state :=
  reset_init willing false 128 false false None None 0 false false
    initial_state.

(** A store in which a backup is owed. *)
Definition owing_state : state :=
  config_setNeedsBackup true initial_state.

(** The state a handler returns to, or the initial one if it did not
    return. *)
Definition returned (r : option state) : state :=
  match r with Some st => st | None => initial_state end.

(** [awaiting_state] after the host's entropy. *)
Definition after_entropy : state :=
  returned (reset_entropy willing [x01; x02] 2 awaiting_state).

(** [owing_state] after a separate backup cancelled at its second word. *)
Definition after_cancelled_backup : state :=
  returned (reset_backup (demo_env (Some 1%nat) true true) true
              (text "zoo wrong") owing_state).

(** The initial state after an inline backup of two words, all confirmed. *)
Definition after_inline_backup : state :=
  returned (reset_backup willing false (text "zoo wrong") initial_state).

End Demo.

(** * Properties *)

(** Closes [exists evs, t ++ .. = t ++ evs]: reassociate, then read off the
    witness. *)
Ltac extends_trace :=
  simpl; rewrite <- ?app_assoc; simpl; eexists; reflexivity.

Lemma skipn_app_length {A : Type} (w t : list A) :
  skipn (List.length w) (w ++ t) = t.
Proof. induction w; simpl; auto. Qed.

Lemma new_events_app (st st' : state) (evs : list event) :
  trace st' = trace st ++ evs -> new_events st st' = evs.
Proof. intros H. unfold new_events. rewrite H. apply skipn_app_length. Qed.

(** Rewrites [new_events st st'] to the list of calls, for a state [st']
    built from [st]. *)
Ltac new_events_norm :=
  unfold new_events; cbn [trace emit set_config set_int_entropy tick_buttons
                          tick_random tick_pins set_awaiting_entropy
                          set_strength set_skip_backup set_no_backup
                          set_current_word layoutHome fsm_sendFailure
                          fsm_sendSuccess layoutDialogSwipe layoutResetWord
                          msg_write_EntropyRequest mnemonic_clear
                          session_clear config_setPassphraseProtection
                          config_setLanguage config_setLabel
                          config_setU2FCounter config_setNoBackup
                          config_setNeedsBackup config_setUnfinishedBackup];
  rewrite <- ?app_assoc; cbn [app]; rewrite ?skipn_app_length.

(** Closes [new_events st st' = evs] for a state [st'] built from [st]. *)
Ltac solve_new_events :=
  apply new_events_app; cbn; rewrite <- ?app_assoc; reflexivity.

Section Frame.
Context {prims : Primitives}.
Variable env : environment.

Lemma keeps_refl st : keeps st st.
Proof. constructor; auto. exists []. now rewrite app_nil_r. Qed.

Lemma keeps_trans st1 st2 st3 : keeps st1 st2 -> keeps st2 st3 -> keeps st1 st3.
Proof.
  intros [a1 a2 a3 a4 a5 a6 [e1 a7]] [b1 b2 b3 b4 b5 b6 [e2 b7]].
  constructor; try congruence.
  exists (e1 ++ e2). rewrite b7, a7. now rewrite app_assoc.
Qed.

Lemma cancelled_extend separated st1 st2 st3 :
  (exists evs, trace st2 = trace st1 ++ evs) ->
  cancelled separated st2 st3 -> cancelled separated st1 st3.
Proof.
  intros [e He] [evs H]. exists (e ++ evs). rewrite H, He.
  now rewrite <- !app_assoc.
Qed.

Lemma keeps_emit e st : keeps st (emit e st).
Proof. constructor; simpl; auto. now exists [e]. Qed.

Lemma keeps_tick_buttons st : keeps st (tick_buttons st).
Proof. constructor; simpl; auto. exists []. now rewrite app_nil_r. Qed.

Lemma keeps_set_current_word cw st : keeps st (set_current_word cw st).
Proof. constructor; simpl; auto. exists []. now rewrite app_nil_r. Qed.

(** The inner loop ends within [sizeof current_word] iterations, and moves
    forward when it starts on a character of a word. *)
Lemma copy_current_word_total (m : list ascii) :
  forall fuel i j cw,
    (sizeof_current_word - 1 - j <= fuel)%nat ->
    exists i' j' cw',
      copy_current_word fuel m i j cw = Some (i', j', cw') /\
      (i <= i')%nat /\
      (Ascii.eqb (char_at m i) SPACE = false ->
       Ascii.eqb (char_at m i) NUL = false ->
       (j + 1 < sizeof_current_word)%nat -> (i < i')%nat).
Proof.
  induction fuel as [|fuel IH]; intros i j cw Hf; simpl.
  - destruct (Ascii.eqb (char_at m i) SPACE) eqn:Es; simpl.
    + exists i, j, cw. repeat split; auto; discriminate.
    + destruct (Ascii.eqb (char_at m i) NUL) eqn:En; simpl.
      * exists i, j, cw. repeat split; auto; discriminate.
      * destruct (Nat.ltb_spec (j + 1) sizeof_current_word) as [Hlt|Hge].
        { unfold sizeof_current_word in *. lia. }
        exists i, j, cw. repeat split; auto. intros; lia.
  - destruct (Ascii.eqb (char_at m i) SPACE) eqn:Es; simpl.
    + exists i, j, cw. repeat split; auto; discriminate.
    + destruct (Ascii.eqb (char_at m i) NUL) eqn:En; simpl.
      * exists i, j, cw. repeat split; auto; discriminate.
      * destruct (Nat.ltb_spec (j + 1) sizeof_current_word) as [Hlt|Hge].
        { destruct (IH (i + 1)%nat (j + 1)%nat (store cw j (char_at m i)))
            as (i' & j' & cw' & E & Hle & _).
          { unfold sizeof_current_word in *. lia. }
          exists i', j', cw'. repeat split; auto; intros; lia. }
        exists i, j, cw. repeat split; auto. intros; lia.
Qed.

Lemma char_at_past_end (m : list ascii) (i : nat) :
  (List.length m <= i)%nat -> char_at m i = NUL.
Proof. intros H. unfold char_at. now apply nth_overflow. Qed.

Lemma word_loop_S (separated : bool) (m : list ascii) (pass i word_pos : nat)
  (fuel : nat) (st : state) :
  word_loop env (S fuel) separated m pass i word_pos st =
  if Ascii.eqb (char_at m i) NUL then Some (Next st)
  else
    match copy_current_word sizeof_current_word m i 0 (current_word st) with
    | None => None
    | Some (i, j, cw) =>
        let st := set_current_word (store cw j NUL) st in
        let i := if negb (Ascii.eqb (char_at m i) NUL)
                 then (i + 1)%nat else i in
        let st := layoutResetWord (c_str (current_word st)) pass word_pos
                    (Ascii.eqb (char_at m i) NUL) st in
        let (ok, st) :=
          protectButton env ButtonRequestType_ButtonRequest_ConfirmWord true st in
        if negb ok then
          let st := if negb separated then session_clear true st else st in
          let st := layoutHome st in
          let st := fsm_sendFailure FailureType_Failure_ActionCancelled
                      None st in
          Some (Return st)
        else word_loop env fuel separated m pass i (word_pos + 1) st
    end.
Proof. reflexivity. Qed.

(** The word loop ends on every mnemonic: one unit of fuel per remaining
    character is enough. It touches neither the session nor the store. *)
Lemma word_loop_total (separated : bool) (m : list ascii) (pass : nat) :
  forall fuel i word_pos st,
    (List.length m - i <= fuel)%nat ->
    exists r,
      word_loop env fuel separated m pass i word_pos st = Some r /\
      keeps st (flow_state r) /\
      match r with
      | Next _ => True
      | Return st' => cancelled separated st st'
      end.
Proof.
  induction fuel as [|fuel IH]; intros i wp st Hf.
  - simpl. rewrite char_at_past_end by lia. simpl.
    exists (Next st). split; [reflexivity|]. split; [apply keeps_refl|exact I].
  - rewrite word_loop_S. destruct (Ascii.eqb (char_at m i) NUL) eqn:En.
    { exists (Next st). split; [reflexivity|]. split; [apply keeps_refl|exact I]. }
    destruct (copy_current_word_total m sizeof_current_word i 0 (current_word st))
      as (i' & j' & cw' & E & Hle & Hlt).
    { unfold sizeof_current_word; lia. }
    rewrite E.
    assert (Hi : (i < List.length m)%nat).
    { destruct (Nat.lt_ge_cases i (List.length m)); auto.
      rewrite char_at_past_end in En by lia. discriminate. }
    set (i2 := if negb (Ascii.eqb (char_at m i') NUL) then (i' + 1)%nat else i').
    assert (Hi2 : (i < i2)%nat).
    { subst i2. destruct (Ascii.eqb (char_at m i') NUL) eqn:En'; simpl; [|lia].
      destruct (Ascii.eqb (char_at m i) SPACE) eqn:Es.
      - destruct (Nat.eq_dec i i') as [->|]; [congruence|lia].
      - apply Hlt; auto. unfold sizeof_current_word; lia. }
    fold i2. unfold protectButton; cbn -[word_loop].
    destruct (button_answer env (buttons_asked st)); cbn -[word_loop].
    + match goal with
      | |- context [word_loop env fuel separated m pass i2 ?w ?s] =>
          destruct (IH i2 w s) as (r & Er & Hk & Hr); [lia|];
          assert (Hk1 : keeps st s) by (constructor; simpl; auto; extends_trace)
      end.
      exists r. rewrite Er. split; [reflexivity|]. split.
      * eapply keeps_trans; eauto.
      * destruct r as [s|s]; auto.
        eapply cancelled_extend; eauto. apply Hk1.
    + eexists (Return _). split; [reflexivity|]. split.
      * destruct separated; simpl; constructor; simpl; auto; extends_trace.
      * unfold cancelled. destruct separated; simpl.
        -- exists [LayoutResetWord (c_str (store cw' j' NUL)) pass wp
                     (Ascii.eqb (char_at m i2) NUL);
                   ProtectButton ButtonRequestType_ButtonRequest_ConfirmWord true].
           now rewrite <- !app_assoc.
        -- exists [LayoutResetWord (c_str (store cw' j' NUL)) pass wp
                     (Ascii.eqb (char_at m i2) NUL);
                   ProtectButton ButtonRequestType_ButtonRequest_ConfirmWord true].
           now rewrite <- !app_assoc.
Qed.

Lemma pass_loop_total (separated : bool) (m : list ascii) :
  forall fuel pass st,
    (2 - pass <= fuel)%nat ->
    exists r,
      pass_loop env fuel separated m pass st = Some r /\
      keeps st (flow_state r) /\
      match r with
      | Next _ => True
      | Return st' => cancelled separated st st'
      end.
Proof.
  induction fuel as [|fuel IH]; intros pass st Hf; simpl.
  - destruct (Nat.ltb_spec pass 2); [lia|].
    exists (Next st). split; [reflexivity|]. split; [apply keeps_refl|exact I].
  - destruct (Nat.ltb_spec pass 2).
    2:{ exists (Next st). split; [reflexivity|]. split; [apply keeps_refl|exact I]. }
    destruct (word_loop_total separated m pass (List.length m) 0 1 st)
      as (r & Er & Hk & Hr); [lia|].
    rewrite Er. destruct r as [s|s].
    + destruct (IH (pass + 1)%nat s) as (r' & Er' & Hk' & Hr'); [lia|].
      exists r'. split; [exact Er'|]. split.
      * eapply keeps_trans; eauto.
      * destruct r' as [s'|s']; auto.
        eapply cancelled_extend; eauto. apply Hk.
    + exists (Return s). auto.
Qed.

(** The three ways [reset_backup] ends: the entry check rejects the call, a
    word is declined, or both passes are confirmed. It always ends. *)
Lemma reset_backup_cases (separated : bool) (m : list ascii) (st : state) :
  (separated = true /\ cfg_needs_backup (config st) = false /\
   reset_backup env separated m st =
   Some (fsm_sendFailure FailureType_Failure_UnexpectedMessage
           (Some "Seed already backed up") st))
  \/
  ((separated = true -> cfg_needs_backup (config st) = true) /\
   exists st2,
     keeps (if separated then backup_entry st else st) st2 /\
     ((reset_backup env separated m st = Some st2 /\
       cancelled separated (if separated then backup_entry st else st) st2)
      \/
      reset_backup env separated m st
      = Some (backup_finish env separated m st2))).
Proof.
  unfold reset_backup, config_getNeedsBackup.
  destruct separated.
  - destruct (cfg_needs_backup (config st)) eqn:Enb; cbn -[pass_loop].
    2:{ left; auto. }
    right. split; [auto|].
    destruct (pass_loop_total true m 2 0 (backup_entry st)) as (r & Er & Hk & Hr);
      [lia|].
    unfold backup_entry in *. rewrite Er.
    destruct r as [s|s]; exists s; simpl in Hk; (split; [exact Hk|]).
    + right. reflexivity.
    + left. auto.
  - right. split; [discriminate|].
    destruct (pass_loop_total false m 2 0 st) as (r & Er & Hk & Hr); [lia|].
    cbn -[pass_loop]. rewrite Er.
    destruct r as [s|s]; exists s; simpl in Hk; (split; [exact Hk|]).
    + right. reflexivity.
    + left. auto.
Qed.

(** *** Words that fit the buffer *)

Lemma char_at_skipn (m : list ascii) :
  forall i k, char_at m (i + k) = nth k (skipn i m) NUL.
Proof.
  unfold char_at. induction m as [|c m IH]; intros [|i] k; simpl; auto;
    now destruct k.
Qed.

Lemma store_length (c : ascii) :
  forall buf j, List.length (store buf j c) = List.length buf.
Proof. induction buf as [|b buf IH]; intros [|j]; simpl; auto. Qed.

Lemma firstn_store (c : ascii) :
  forall buf j, (j < List.length buf)%nat ->
    firstn (j + 1) (store buf j c) = firstn j buf ++ [c].
Proof.
  induction buf as [|b buf IH]; intros [|j] H; simpl in *; try lia; auto.
  f_equal. apply IH. lia.
Qed.

Lemma c_str_store_after :
  forall (w buf : list ascii),
    firstn (List.length w) buf = w ->
    (List.length w < List.length buf)%nat ->
    ~ In NUL w ->
    c_str (store buf (List.length w) NUL) = w.
Proof.
  induction w as [|a w IH]; intros [|b buf] Hf Hl Hn; simpl in *; try lia.
  - reflexivity.
  - injection Hf as -> Hf.
    destruct (Ascii.eqb_spec a NUL) as [->|_]; [tauto|].
    f_equal. apply IH; auto. lia.
Qed.

(** The inner loop on a word that fits: it copies the word, and stops on the
    character after it. *)
Lemma copy_current_word_fits (m : list ascii) :
  forall w fuel i j cw,
    (forall k, (k < List.length w)%nat -> char_at m (i + k) = nth k w NUL) ->
    Forall (fun c => c <> SPACE /\ c <> NUL) w ->
    (char_at m (i + List.length w) = SPACE \/
     char_at m (i + List.length w) = NUL) ->
    (j + List.length w < sizeof_current_word)%nat ->
    List.length cw = sizeof_current_word ->
    (List.length w <= fuel)%nat ->
    exists cw',
      copy_current_word fuel m i j cw
      = Some ((i + List.length w)%nat, (j + List.length w)%nat, cw') /\
      List.length cw' = sizeof_current_word /\
      firstn (j + List.length w) cw' = firstn j cw ++ w.
Proof.
  induction w as [|a w IH]; intros fuel i j cw Hch Hw Hend Hj Hcw Hfuel.
  - simpl in *. rewrite !Nat.add_0_r in *. exists cw.
    assert (E : negb (Ascii.eqb (char_at m i) SPACE)
                && negb (Ascii.eqb (char_at m i) NUL) = false).
    { destruct Hend as [-> | ->]; reflexivity. }
    destruct fuel; simpl; rewrite E; simpl; rewrite app_nil_r; auto.
  - simpl in Hfuel. destruct fuel as [|fuel]; [lia|].
    inversion Hw as [|? ? [Ha1 Ha2] Hw']; subst.
    assert (Ha : char_at m i = a).
    { specialize (Hch 0%nat). rewrite Nat.add_0_r in Hch. apply Hch. simpl; lia. }
    simpl copy_current_word. rewrite Ha.
    destruct (Ascii.eqb_spec a SPACE) as [|_]; [tauto|].
    destruct (Ascii.eqb_spec a NUL) as [|_]; [tauto|].
    simpl in Hj.
    destruct (Nat.ltb_spec (j + 1) sizeof_current_word) as [_|?]; [|lia].
    simpl andb. cbv iota.
    destruct (IH fuel (i + 1)%nat (j + 1)%nat (store cw j a)) as (cw' & E & Hl & Hf).
    + intros k Hk. replace (i + 1 + k)%nat with (i + S k)%nat by lia.
      rewrite Hch by (simpl; lia). reflexivity.
    + exact Hw'.
    + replace (i + 1 + List.length w)%nat with (i + List.length (a :: w))%nat
        by (simpl; lia). exact Hend.
    + lia.
    + now rewrite store_length.
    + lia.
    + exists cw'. simpl List.length.
      replace (i + S (List.length w))%nat with (i + 1 + List.length w)%nat by lia.
      replace (j + S (List.length w))%nat with (j + 1 + List.length w)%nat by lia.
      split; [exact E|]. split; [exact Hl|].
      rewrite Hf, firstn_store by lia. now rewrite <- app_assoc.
Qed.

Lemma tokens_word_space (w r : list ascii) :
  ~ In SPACE w -> tokens (w ++ SPACE :: r) = w :: tokens r.
Proof.
  induction w as [|a w IH]; intros Hn; simpl.
  - reflexivity.
  - destruct (Ascii.eqb_spec a SPACE) as [->|_]; [simpl in Hn; tauto|].
    rewrite IH; [reflexivity|]. simpl in Hn; tauto.
Qed.

Lemma tokens_word (w : list ascii) :
  ~ In SPACE w -> w <> [] -> tokens w = [w].
Proof.
  induction w as [|a w IH]; intros Hn Hne; [congruence|]. simpl.
  destruct (Ascii.eqb_spec a SPACE) as [->|_]; [simpl in Hn; tauto|].
  destruct w as [|b w]; [reflexivity|].
  rewrite IH; [reflexivity| |discriminate]. simpl in *; tauto.
Qed.

Lemma tokens_nil (m : list ascii) : tokens m = [] -> m = [].
Proof.
  destruct m as [|c m]; simpl; auto.
  destruct (Ascii.eqb c SPACE); [discriminate|].
  destruct (tokens m); discriminate.
Qed.

(** A text starts with a word, which either ends the text or is followed by
    a space. *)
Lemma first_word (m : list ascii) :
  exists w tail, m = w ++ tail /\ ~ In SPACE w /\
                 (tail = [] \/ exists r, tail = SPACE :: r).
Proof.
  induction m as [|c m (w & tail & E & Hn & Ht)].
  - exists [], []. simpl; auto.
  - destruct (Ascii.eqb_spec c SPACE) as [->|Hc].
    + exists [], (SPACE :: m). simpl. split; [auto|]. split; [tauto|]. eauto.
    + exists (c :: w), tail. simpl. split; [now rewrite E|]. split; [|auto].
      intros [H|H]; [congruence|tauto].
Qed.

(** One confirmed iteration of the word loop. *)
Lemma word_loop_step (separated : bool) (m : list ascii)
  (pass i word_pos fuel : nat) (st : state) (i' j' : nat) (cw' : list ascii) :
  Ascii.eqb (char_at m i) NUL = false ->
  copy_current_word sizeof_current_word m i 0 (current_word st)
  = Some (i', j', cw') ->
  button_answer env (buttons_asked st) = true ->
  word_loop env (S fuel) separated m pass i word_pos st =
  let i2 := if negb (Ascii.eqb (char_at m i') NUL) then (i' + 1)%nat else i' in
  word_loop env fuel separated m pass i2 (word_pos + 1)
    (tick_buttons
       (emit (ProtectButton ButtonRequestType_ButtonRequest_ConfirmWord true)
          (emit (LayoutResetWord (c_str (store cw' j' NUL)) pass word_pos
                   (Ascii.eqb (char_at m i2) NUL))
             (set_current_word (store cw' j' NUL) st)))).
Proof.
  intros En E Hb. rewrite word_loop_S, En, E.
  unfold protectButton, layoutResetWord. cbn -[word_loop].
  rewrite Hb. reflexivity.
Qed.

(** The word loop on a text whose words fit, every word confirmed: it shows
    the tokens of the text from [i] on, in order, and falls through. *)
Lemma word_loop_confirmed (separated : bool) (m : list ascii) (pass : nat) :
  forall fuel i word_pos st,
    ~ In NUL (skipn i m) ->
    Forall (fun w => (List.length w < sizeof_current_word)%nat)
      (tokens (skipn i m)) ->
    (List.length (skipn i m) <= fuel)%nat ->
    List.length (current_word st) = sizeof_current_word ->
    (forall k, (k < List.length (tokens (skipn i m)))%nat ->
               button_answer env (buttons_asked st + k) = true) ->
    exists st',
      word_loop env fuel separated m pass i word_pos st = Some (Next st') /\
      keeps st st' /\
      trace st' = trace st ++ word_events pass word_pos (tokens (skipn i m)) /\
      buttons_asked st' = (buttons_asked st + List.length (tokens (skipn i m)))%nat /\
      List.length (current_word st') = sizeof_current_word.
Proof.
  induction fuel as [|fuel IH]; intros i wp st Hnul Hfit Hfuel Hcw Hbtn.
  - destruct (skipn i m) as [|c rest] eqn:Es; [|simpl in Hfuel; lia].
    assert (En : char_at m i = NUL).
    { replace i with (i + 0)%nat by lia. now rewrite char_at_skipn, Es. }
    simpl. rewrite En. simpl. exists st.
    rewrite app_nil_r, Nat.add_0_r. auto using keeps_refl.
  - destruct (skipn i m) as [|c rest] eqn:Es.
    { assert (En : char_at m i = NUL).
      { replace i with (i + 0)%nat by lia. now rewrite char_at_skipn, Es. }
      rewrite word_loop_S, En. simpl. exists st.
      rewrite app_nil_r, Nat.add_0_r. auto using keeps_refl. }
    assert (Hc : char_at m i = c).
    { replace i with (i + 0)%nat by lia. now rewrite char_at_skipn, Es. }
    assert (En : Ascii.eqb (char_at m i) NUL = false).
    { rewrite Hc. destruct (Ascii.eqb_spec c NUL) as [->|]; auto.
      exfalso. apply Hnul. now left. }
    destruct (first_word (c :: rest)) as (w & tail & E & Hsp & Htail).
    assert (Hat : forall k, char_at m (i + k) = nth k (w ++ tail) NUL).
    { intros k. now rewrite char_at_skipn, Es, E. }
    assert (Hsk : skipn (i + List.length w) m = tail).
    { rewrite Nat.add_comm, <- skipn_skipn, Es, E. apply skipn_app_length. }
    (* the tokens of the text at [i] are [w] and those of what follows *)
    set (i2 := if negb (Ascii.eqb (char_at m (i + List.length w)) NUL)
               then (i + List.length w + 1)%nat else (i + List.length w)%nat).
    assert (Hnext : exists r,
               skipn i2 m = r /\ tokens (c :: rest) = w :: tokens r /\
               (List.length r < List.length (c :: rest))%nat /\
               Ascii.eqb (char_at m i2) NUL
               = match tokens r with [] => true | _ => false end /\
               (char_at m (i + List.length w) = SPACE \/
                char_at m (i + List.length w) = NUL) /\
               (forall x, In x r -> In x (c :: rest))).
    { destruct Htail as [->|(r & ->)].
      - assert (Hend : char_at m (i + List.length w) = NUL).
        { rewrite Hat, app_nil_r. apply nth_overflow. lia. }
        exists []. subst i2. rewrite Hend. simpl negb. cbv iota.
        rewrite Hend, Hsk. rewrite app_nil_r in E. subst w.
        split; [reflexivity|]. split; [apply tokens_word; [auto|discriminate]|].
        split; [simpl; lia|]. split; [reflexivity|]. split; [now right|].
        intros x [].
      - assert (Hend : char_at m (i + List.length w) = SPACE).
        { rewrite Hat. rewrite app_nth2, Nat.sub_diag by lia. reflexivity. }
        exists r. subst i2. rewrite Hend. simpl negb. cbv iota.
        assert (Hr : skipn (i + List.length w + 1) m = r).
        { rewrite Nat.add_comm, <- skipn_skipn, Hsk. reflexivity. }
        split; [exact Hr|]. split; [rewrite E; now apply tokens_word_space|].
        split; [rewrite E, length_app; simpl; lia|].
        split; [|split; [now left|]].
        2:{ intros x Hx. rewrite E. apply in_or_app. right. now right. }
        replace (i + List.length w + 1)%nat with (i + List.length w + 1 + 0)%nat
          by lia.
        rewrite char_at_skipn, Hr.
        destruct r as [|d r]; [reflexivity|]. simpl nth.
        destruct (Ascii.eqb_spec d NUL) as [->|_].
        + exfalso. apply Hnul. rewrite E. apply in_or_app. right. simpl. auto.
        + destruct (tokens (d :: r)) eqn:Et; [|reflexivity].
          apply tokens_nil in Et. discriminate. }
    destruct Hnext as (r & Hr & Htok & Hlen & Hflag & Hend & Hincl).
    rewrite Htok in *.
    apply Forall_cons_iff in Hfit as [Hw Hfit'].
    destruct (copy_current_word_fits m w sizeof_current_word i 0 (current_word st))
      as (cw' & Ecopy & Hcw' & Hfirst); auto.
    + intros k Hk. rewrite Hat. now apply app_nth1.
    + apply Forall_forall. intros x Hx. split; intros ->; [tauto|].
      apply Hnul. rewrite E. apply in_or_app. now left.
    + lia.
    + simpl in Ecopy, Hfirst.
      erewrite word_loop_step; eauto.
      2:{ specialize (Hbtn 0%nat). rewrite Nat.add_0_r in Hbtn. apply Hbtn.
          simpl; lia. }
      cbv zeta. fold i2. rewrite Hflag.
      rewrite c_str_store_after; auto.
      2:{ lia. }
      2:{ intros Hin. apply Hnul. rewrite E. apply in_or_app. now left. }
      match goal with
      | |- context [word_loop env fuel separated m pass i2 ?p ?s] =>
          destruct (IH i2 p s) as (st' & Eloop & Hk & Htr & Hb & Hl)
      end.
      * rewrite Hr. intros Hin. apply Hnul. now apply Hincl.
      * now rewrite Hr.
      * rewrite Hr. simpl in Hfuel, Hlen. lia.
      * simpl. now rewrite store_length.
      * rewrite Hr. intros k Hk. simpl buttons_asked.
        replace (S (buttons_asked st) + k)%nat with (buttons_asked st + S k)%nat
          by lia.
        apply Hbtn. simpl. lia.
      * exists st'. rewrite Hr in *. split; [exact Eloop|]. split.
        { eapply keeps_trans; [|exact Hk].
          constructor; simpl; auto. extends_trace. }
        split.
        { rewrite Htr. simpl. rewrite <- !app_assoc. reflexivity. }
        split; [rewrite Hb; simpl; lia | exact Hl].
Qed.

End Frame.

Section Handlers.
Context {prims : Primitives}.
Variable env : environment.

(** [reset_entropy] once the guard has passed, in terms of its three parts. *)
Lemma reset_entropy_awaiting (ext : list byte) (len : nat) (st : state) :
  awaiting_entropy st = true ->
  reset_entropy env ext len st =
  let (mnemonic, st1) := entropy_mixed ext len st in
  if skip_backup st || no_backup st then
    Some (mnemonic_clear
            (store_directly env mnemonic
               (if no_backup st then config_setNoBackup st1
                else config_setNeedsBackup true st1)))
  else option_map mnemonic_clear (reset_backup env false mnemonic st1).
Proof.
  intros Ha. unfold reset_entropy, entropy_mixed, store_directly. rewrite Ha.
  cbn -[reset_backup memzero sha256_Final firstn Z.div Z.to_nat].
  destruct (skip_backup st || no_backup st).
  - unfold config_setMnemonic.
    destruct (no_backup st);
      cbn -[memzero sha256_Final firstn Z.div Z.to_nat];
      match goal with
      | |- context [storage_accepts env ?m] => destruct (storage_accepts env m)
      end; reflexivity.
  - destruct (reset_backup _ _ _ _); reflexivity.
Qed.

Lemma memzero_all (buf : list byte) :
  List.length buf = 32%nat -> memzero buf 32 = repeat x00 32.
Proof.
  intros H. unfold memzero. rewrite H, skipn_all2 by lia.
  now rewrite app_nil_r.
Qed.

Lemma entropy_mixed_state (ext : list byte) (len : nat) (st : state) :
  let d := firstn (Z.to_nat (strength st / 8))
             (sha256_Raw (firstn 32 (int_entropy st) ++ firstn len ext)) in
  fst (entropy_mixed ext len st) = bip39_mnemonic d /\
  trace (snd (entropy_mixed ext len st)) = trace st ++ [MnemonicFromData d] /\
  int_entropy (snd (entropy_mixed ext len st)) = repeat x00 32 /\
  awaiting_entropy (snd (entropy_mixed ext len st)) = false /\
  config (snd (entropy_mixed ext len st)) = config st /\
  skip_backup (snd (entropy_mixed ext len st)) = skip_backup st /\
  no_backup (snd (entropy_mixed ext len st)) = no_backup st /\
  strength (snd (entropy_mixed ext len st)) = strength st /\
  current_word (snd (entropy_mixed ext len st)) = current_word st.
Proof.
  unfold entropy_mixed. cbn -[memzero sha256_Raw Z.div firstn Z.to_nat].
  rewrite memzero_all by apply sha256_Raw_length.
  repeat split; reflexivity.
Qed.

Lemma backup_finish_spec (separated : bool) (m : list ascii) (s : state) :
  let s' := backup_finish env separated m s in
  trace s' = trace s ++ finish_events env separated m /\
  strength s' = strength s /\ int_entropy s' = int_entropy s /\
  awaiting_entropy s' = awaiting_entropy s /\
  skip_backup s' = skip_backup s /\ no_backup s' = no_backup s /\
  current_word s' = current_word s /\
  buttons_asked s' = buttons_asked s /\
  cfg_unfinished_backup (config s') = false /\
  cfg_needs_backup (config s')
  = (if separated then cfg_needs_backup (config s) else false) /\
  cfg_mnemonic (config s')
  = (if separated then cfg_mnemonic (config s)
     else if storage_accepts env m then Some m else cfg_mnemonic (config s)).
Proof.
  unfold backup_finish, finish_events, config_setMnemonic.
  destruct separated; [|destruct (storage_accepts env m)];
    cbn; rewrite <- ?app_assoc; cbn; repeat split; reflexivity.
Qed.

Lemma backup_entry_spec (st : state) :
  trace (backup_entry st)
  = trace st ++ [ConfigSetUnfinishedBackup true; ConfigSetNeedsBackup false] /\
  cfg_unfinished_backup (config (backup_entry st)) = true /\
  cfg_needs_backup (config (backup_entry st)) = false /\
  keeps_session st (backup_entry st).
Proof.
  unfold backup_entry, keeps_session. cbn. rewrite <- app_assoc.
  repeat split; reflexivity.
Qed.

(** [reset_backup] past its entry check: it ends, laying out the home screen
    on the way, and leaves the session variables alone. *)
Lemma reset_backup_runs (separated : bool) (m : list ascii) (st : state) :
  (separated = true -> cfg_needs_backup (config st) = true) ->
  exists st' evs,
    reset_backup env separated m st = Some st' /\
    trace st' = trace st ++ evs /\
    In LayoutHome evs /\
    keeps_session st st'.
Proof.
  intros Hnb.
  destruct (reset_backup_cases env separated m st)
    as [(Hs & Hn & _) | (_ & st2 & Hk & Hcase)].
  { rewrite (Hnb Hs) in Hn. discriminate. }
  set (st1 := if separated then backup_entry st else st) in *.
  assert (H1 : exists e1, trace st1 = trace st ++ e1 /\ keeps_session st st1).
  { subst st1. destruct separated.
    - destruct (backup_entry_spec st) as (Ht & _ & _ & Hs). eauto.
    - exists []. rewrite app_nil_r. unfold keeps_session. auto 6. }
  destruct H1 as (e1 & Ht1 & Hs1).
  destruct Hk as [k1 k2 k3 k4 k5 k6 (e2 & Ht2)].
  assert (Hs2 : keeps_session st st2).
  { unfold keeps_session in *. intuition congruence. }
  destruct Hcase as [(E & evs & Hc) | E].
  - exists st2, (e1 ++ evs ++ (if separated then [] else [SessionClear true])
                 ++ [LayoutHome;
                     SendFailure FailureType_Failure_ActionCancelled None]).
    split; [exact E|]. split; [rewrite Hc, Ht1; now rewrite <- !app_assoc|].
    split; [|exact Hs2].
    apply in_or_app; right. apply in_or_app; right.
    apply in_or_app; right. now left.
  - destruct (backup_finish_spec separated m st2)
      as (Ht & f1 & f2 & f3 & f4 & f5 & _).
    exists (backup_finish env separated m st2),
      (e1 ++ e2 ++ finish_events env separated m).
    split; [exact E|]. split; [rewrite Ht, Ht2, Ht1; now rewrite <- !app_assoc|].
    split.
    + apply in_or_app; right. apply in_or_app; right.
      unfold finish_events. right. apply in_or_app; right. now left.
    + unfold keeps_session in *. intuition congruence.
Qed.

(** C3: an entropy message that arrives while [awaiting_entropy] is false is
    answered with the unexpected-message failure "Not in Reset mode" and
    nothing else happens: the session variables, the word buffer and the
    configuration store are as before, and the failure is the only call
    made. *)
Theorem reset_entropy_not_in_reset_mode (ext : list byte) (len : nat)
  (st : state) :
  awaiting_entropy st = false ->
  exists st',
    reset_entropy env ext len st = Some st' /\
    new_events st st'
    = [SendFailure FailureType_Failure_UnexpectedMessage
         (Some "Not in Reset mode")] /\
    config st' = config st /\
    keeps_session st st' /\
    current_word st' = current_word st /\
    buttons_asked st' = buttons_asked st /\
    random_drawn st' = random_drawn st /\
    pins_asked st' = pins_asked st.
Proof.
  intros Ha. unfold reset_entropy. rewrite Ha. simpl negb. cbv iota.
  eexists. split; [reflexivity|].
  split; [now apply new_events_app|].
  unfold keeps_session. simpl. auto 10.
Qed.

(** C4: a separate backup is refused with "Seed already backed up" when the
    store's needs_backup flag is false, and then nothing changes, the
    unfinished_backup flag included. When the flag is true, the first two
    calls of the handler set unfinished_backup to true and needs_backup to
    false: every layout of a word and every button request comes after them
    in the trace, and needs_backup is false when the handler returns. *)
Theorem reset_backup_separated_entry (m : list ascii) (st : state) :
  (cfg_needs_backup (config st) = false ->
   exists st',
     reset_backup env true m st = Some st' /\
     new_events st st'
     = [SendFailure FailureType_Failure_UnexpectedMessage
          (Some "Seed already backed up")] /\
     config st' = config st /\
     cfg_unfinished_backup (config st') = cfg_unfinished_backup (config st) /\
     keeps_session st st' /\ current_word st' = current_word st /\
     buttons_asked st' = buttons_asked st)
  /\
  (cfg_needs_backup (config st) = true ->
   exists st' evs,
     reset_backup env true m st = Some st' /\
     new_events st st'
     = ConfigSetUnfinishedBackup true :: ConfigSetNeedsBackup false :: evs /\
     cfg_unfinished_backup (config (backup_entry st)) = true /\
     cfg_needs_backup (config (backup_entry st)) = false /\
     cfg_needs_backup (config st') = false).
Proof.
  split; intros Hn.
  - unfold reset_backup, config_getNeedsBackup. rewrite Hn. simpl negb. cbv iota.
    eexists. split; [reflexivity|].
    split; [now apply new_events_app|].
    unfold keeps_session. simpl. auto 10.
  - destruct (reset_backup_cases env true m st)
      as [(_ & Hn' & _) | (_ & st2 & Hk & Hcase)]; [congruence|].
    destruct (backup_entry_spec st) as (Ht & Hu & Hb & _).
    destruct Hk as [_ _ _ _ _ Hc (e2 & Ht2)].
    destruct Hcase as [(E & _) | E].
    + exists st2, e2. split; [exact E|]. split.
      * apply new_events_app. rewrite Ht2, Ht. now rewrite <- app_assoc.
      * rewrite Hc. auto.
    + destruct (backup_finish_spec true m st2) as (Hf & Hrest).
      exists (backup_finish env true m st2), (e2 ++ finish_events env true m).
      split; [exact E|]. split.
      * apply new_events_app. rewrite Hf, Ht2, Ht. now rewrite <- !app_assoc.
      * split; [exact Hu|]. split; [exact Hb|].
        destruct Hrest as (_ & _ & _ & _ & _ & _ & _ & _ & Hnb & _).
        rewrite Hnb, Hc. exact Hb.
Qed.

(** C10, as amended: with the empty mnemonic no word is laid out and no
    button is requested; both passes end at once and unfinished_backup is set
    to false. A separate backup (needs_backup being true) then reports
    success. An inline backup sets needs_backup to false and asks the store
    to keep the empty mnemonic: it reports success when the store accepts it,
    and the process-error failure "Failed to store mnemonic" otherwise. *)
Theorem reset_backup_empty_mnemonic (separated : bool) (st : state) :
  (separated = true -> cfg_needs_backup (config st) = true) ->
  exists st',
    reset_backup env separated [] st = Some st' /\
    new_events st st'
    = (if separated
       then [ConfigSetUnfinishedBackup true; ConfigSetNeedsBackup false]
       else [])
      ++ ConfigSetUnfinishedBackup false
      :: (if separated then [SendSuccess "Seed successfully backed up"]
          else [ConfigSetNeedsBackup false; ConfigSetMnemonic [];
                if storage_accepts env []
                then SendSuccess "Device successfully initialized"
                else SendFailure FailureType_Failure_ProcessError
                       (Some "Failed to store mnemonic")])
      ++ [LayoutHome] /\
    buttons_asked st' = buttons_asked st /\
    cfg_unfinished_backup (config st') = false /\
    cfg_needs_backup (config st') = false /\
    (separated = false -> storage_accepts env [] = true ->
     cfg_mnemonic (config st') = Some []).
Proof.
  intros Hn. unfold reset_backup, config_getNeedsBackup.
  destruct separated.
  - rewrite (Hn eq_refl). cbn.
    eexists. split; [reflexivity|]. split; [solve_new_events|].
    cbn. repeat split; discriminate.
  - cbn. unfold config_setMnemonic. cbn.
    destruct (storage_accepts env []) eqn:Es; cbn;
      (eexists; split; [reflexivity|]); (split; [solve_new_events|]);
      cbn; repeat split; congruence.
Qed.

Lemma store_directly_spec (m : list ascii) (s : state) :
  let s' := store_directly env m s in
  trace s'
  = trace s ++ [ConfigSetMnemonic m;
                if storage_accepts env m
                then SendSuccess "Device successfully initialized"
                else SendFailure FailureType_Failure_ProcessError
                       (Some "Failed to store mnemonic");
                LayoutHome] /\
  keeps_session s s' /\
  current_word s' = current_word s /\
  cfg_no_backup (config s') = cfg_no_backup (config s) /\
  cfg_needs_backup (config s') = cfg_needs_backup (config s) /\
  cfg_unfinished_backup (config s') = cfg_unfinished_backup (config s) /\
  cfg_mnemonic (config s')
  = (if storage_accepts env m then Some m else cfg_mnemonic (config s)).
Proof.
  unfold store_directly, config_setMnemonic, keeps_session.
  destruct (storage_accepts env m); cbn; rewrite <- ?app_assoc; cbn;
    repeat split; reflexivity.
Qed.

(** The word loop in terms of the answers it was given, whatever the
    mnemonic and the buffer: up to the point where it ends it only lays out
    words and asks for their confirmation; it touches no setting of the
    store; it falls through when every request it made was confirmed, and
    returns at the first request that is declined. *)
Lemma word_loop_answers (separated : bool) (m : list ascii) (pass : nat) :
  forall fuel i word_pos st r,
    word_loop env fuel separated m pass i word_pos st = Some r ->
    exists pre,
      forallb shows_word pre = true /\
      trace (flow_state r) = trace st ++ pre ++ loop_tail separated r /\
      config (flow_state r) = config st /\
      (buttons_asked st <= buttons_asked (flow_state r))%nat /\
      match r with
      | Next s =>
          forall k, (buttons_asked st <= k < buttons_asked s)%nat ->
                    button_answer env k = true
      | Return s =>
          (buttons_asked st < buttons_asked s)%nat /\
          button_answer env (buttons_asked s - 1) = false
      end.
Proof.
  induction fuel as [|fuel IH]; intros i wp st r.
  - simpl. destruct (Ascii.eqb (char_at m i) NUL); [|discriminate].
    intros H; inversion H; subst r. exists []. cbn. rewrite app_nil_r.
    repeat split; auto. intros k Hk. lia.
  - rewrite word_loop_S. destruct (Ascii.eqb (char_at m i) NUL).
    { intros H; inversion H; subst r. exists []. cbn. rewrite app_nil_r.
      repeat split; auto. intros k Hk. lia. }
    destruct (copy_current_word sizeof_current_word m i 0 (current_word st))
      as [[[i' j'] cw']|]; [|discriminate].
    unfold protectButton, layoutResetWord. cbn -[word_loop].
    set (i2 := if negb (Ascii.eqb (char_at m i') NUL) then (i' + 1)%nat else i').
    set (shown := LayoutResetWord (c_str (store cw' j' NUL)) pass wp
                    (Ascii.eqb (char_at m i2) NUL)).
    set (asked := ProtectButton ButtonRequestType_ButtonRequest_ConfirmWord
                    true).
    destruct (button_answer env (buttons_asked st)) eqn:Hb0; cbn -[word_loop].
    + intros H. apply IH in H.
      destruct H as (pre & Hpre & Ht & Hc & Hle & Hans).
      cbn [buttons_asked tick_buttons emit set_current_word] in Hle, Hans.
      exists (shown :: asked :: pre).
      split; [cbn; exact Hpre|].
      split; [rewrite Ht; cbn; now rewrite <- !app_assoc|].
      split; [rewrite Hc; reflexivity|].
      split; [lia|].
      destruct r as [s|s]; cbn [flow_state] in *.
      * intros k Hk.
        destruct (Nat.eq_dec k (buttons_asked st)) as [->|Hne];
          [exact Hb0 | apply Hans; lia].
      * destruct Hans as (Hlt & Hno). split; [lia | exact Hno].
    + intros H; inversion H; subst r. clear H.
      exists [shown; asked].
      split; [reflexivity|].
      destruct separated; cbn; rewrite <- ?app_assoc; cbn;
        rewrite Nat.sub_0_r; repeat split; auto.
Qed.

(** An inline [reset_backup] in terms of the answers it was given, whatever
    the mnemonic: it ends; before its last calls it only lays out words and
    asks for their confirmation. When every request it made was confirmed it
    runs lines 171-183 on a store that is still as it found it; when a
    request was declined it wipes the session, lays out the home screen and
    sends the action-cancelled failure, and the store is as it found it. *)
Lemma reset_backup_inline_answers (m : list ascii) (st : state) :
  exists st' words,
    reset_backup env false m st = Some st' /\
    forallb shows_word words = true /\
    ((new_events st st' = words ++ finish_events env false m /\
      (exists sb, st' = backup_finish env false m sb /\
                  config sb = config st) /\
      (forall k, (buttons_asked st <= k < buttons_asked st')%nat ->
                 button_answer env k = true))
     \/
     (new_events st st'
      = words ++ [SessionClear true; LayoutHome;
                  SendFailure FailureType_Failure_ActionCancelled None] /\
      config st' = config st /\
      (buttons_asked st < buttons_asked st')%nat /\
      button_answer env (buttons_asked st' - 1) = false)).
Proof.
  unfold reset_backup. cbn -[word_loop].
  destruct (word_loop_total env false m 0 (List.length m) 0 1 st)
    as (ra & Ea & _); [lia|].
  rewrite Ea. apply word_loop_answers in Ea.
  destruct Ea as (pa & Hpa & Hta & Hca & Hla & Hansa).
  destruct ra as [sa|sa]; cbn [flow_state loop_tail] in *.
  2:{ exists sa, pa. split; [reflexivity|]. split; [exact Hpa|]. right.
      split; [apply new_events_app; exact Hta|]. tauto. }
  rewrite app_nil_r in Hta.
  destruct (word_loop_total env false m 1 (List.length m) 0 1 sa)
    as (rb & Eb & _); [lia|].
  cbn -[word_loop]. rewrite Eb. apply word_loop_answers in Eb.
  destruct Eb as (pb & Hpb & Htb & Hcb & Hlb & Hansb).
  assert (Hp : forallb shows_word (pa ++ pb) = true).
  { rewrite forallb_app, Hpa, Hpb. reflexivity. }
  destruct rb as [sb|sb]; cbn [flow_state loop_tail] in *.
  - rewrite app_nil_r in Htb.
    destruct (backup_finish_spec false m sb)
      as (Hf & _ & _ & _ & _ & _ & _ & Hbf & _).
    exists (backup_finish env false m sb), (pa ++ pb).
    split; [reflexivity|]. split; [exact Hp|]. left.
    split; [|split].
    + apply new_events_app. rewrite Hf, Htb, Hta. now rewrite <- !app_assoc.
    + exists sb. split; [reflexivity | congruence].
    + intros k Hk. rewrite Hbf in Hk.
      destruct (Nat.lt_ge_cases k (buttons_asked sa));
        [apply Hansa | apply Hansb]; lia.
  - exists sb, (pa ++ pb). split; [reflexivity|]. split; [exact Hp|]. right.
    destruct Hansb as (Hlt & Hno).
    split; [|split; [congruence | split; [lia | exact Hno]]].
    apply new_events_app. rewrite Htb, Hta. now rewrite <- !app_assoc.
Qed.

(** C9: after the mnemonic is derived, [reset_entropy] looks at the two
    flags. With [no_backup] it marks the opt-out in the store, stores the
    mnemonic and reports success, or the process error when the store
    refuses. With [skip_backup] and not [no_backup] it sets needs_backup to
    true and does the same. With neither it calls [reset_backup] in inline
    mode on the fresh mnemonic and adds nothing but [mnemonic_clear]. It is
    [reset_backup] that stores the mnemonic and replies: after laying out
    words and asking for their confirmation, and when every request it made
    was confirmed, it clears unfinished_backup and needs_backup, stores the
    mnemonic and reports success, or the process error when the store
    refuses; when a request was declined it stores nothing and sends the
    action-cancelled failure. *)
Theorem reset_entropy_dispatch (ext : list byte) (len : nat) (st : state) :
  awaiting_entropy st = true ->
  let mnemonic := fst (entropy_mixed ext len st) in
  let st1 := snd (entropy_mixed ext len st) in
  let reply :=
    if storage_accepts env mnemonic
    then SendSuccess "Device successfully initialized"
    else SendFailure FailureType_Failure_ProcessError
           (Some "Failed to store mnemonic") in
  (no_backup st = true ->
   exists st',
     reset_entropy env ext len st = Some st' /\
     new_events st1 st'
     = [ConfigSetNoBackup; ConfigSetMnemonic mnemonic; reply; LayoutHome;
        MnemonicClear] /\
     cfg_no_backup (config st') = true /\
     cfg_needs_backup (config st') = cfg_needs_backup (config st) /\
     cfg_mnemonic (config st')
     = (if storage_accepts env mnemonic then Some mnemonic
        else cfg_mnemonic (config st)))
  /\
  (skip_backup st = true -> no_backup st = false ->
   exists st',
     reset_entropy env ext len st = Some st' /\
     new_events st1 st'
     = [ConfigSetNeedsBackup true; ConfigSetMnemonic mnemonic; reply;
        LayoutHome; MnemonicClear] /\
     cfg_needs_backup (config st') = true /\
     cfg_no_backup (config st') = cfg_no_backup (config st) /\
     cfg_mnemonic (config st')
     = (if storage_accepts env mnemonic then Some mnemonic
        else cfg_mnemonic (config st)))
  /\
  (skip_backup st = false -> no_backup st = false ->
   exists st2 words,
     reset_backup env false mnemonic st1 = Some st2 /\
     reset_entropy env ext len st = Some (mnemonic_clear st2) /\
     new_events st2 (mnemonic_clear st2) = [MnemonicClear] /\
     config (mnemonic_clear st2) = config st2 /\
     forallb shows_word words = true /\
     ((new_events st1 st2
       = words ++ [ConfigSetUnfinishedBackup false; ConfigSetNeedsBackup false;
                   ConfigSetMnemonic mnemonic; reply; LayoutHome] /\
       cfg_unfinished_backup (config st2) = false /\
       cfg_needs_backup (config st2) = false /\
       cfg_no_backup (config st2) = cfg_no_backup (config st) /\
       cfg_mnemonic (config st2)
       = (if storage_accepts env mnemonic then Some mnemonic
          else cfg_mnemonic (config st)) /\
       (forall k, (buttons_asked st <= k < buttons_asked st2)%nat ->
                  button_answer env k = true))
      \/
      (new_events st1 st2
       = words ++ [SessionClear true; LayoutHome;
                   SendFailure FailureType_Failure_ActionCancelled None] /\
       config st2 = config st /\
       (buttons_asked st < buttons_asked st2)%nat /\
       button_answer env (buttons_asked st2 - 1) = false))).
Proof.
  intros Ha mnemonic st1 reply.
  pose proof (reset_entropy_awaiting ext len st Ha) as E.
  destruct (entropy_mixed_state ext len st)
    as (_ & Ht & _ & _ & Hc & _).
  assert (Hb1 : buttons_asked (snd (entropy_mixed ext len st))
                = buttons_asked st) by reflexivity.
  destruct (entropy_mixed ext len st) as [mn s1] eqn:Em.
  simpl in mnemonic, st1, Ht, Hc, Hb1. subst mnemonic st1.
  split; [|split].
  - intros Hno. rewrite Hno, orb_true_r in E.
    destruct (store_directly_spec mn (config_setNoBackup s1))
      as (Hs & _ & _ & Hnb & Hn & _ & Hm).
    eexists. split; [exact E|]. split.
    + apply new_events_app. cbn [mnemonic_clear emit trace]. rewrite Hs.
      cbn. rewrite <- ?app_assoc. reflexivity.
    + cbn [mnemonic_clear emit config]. rewrite Hnb, Hn, Hm. cbn.
      rewrite Hc. auto.
  - intros Hsk Hno. rewrite Hsk, Hno in E. simpl orb in E. cbv iota in E.
    destruct (store_directly_spec mn (config_setNeedsBackup true s1))
      as (Hs & _ & _ & Hnb & Hn & _ & Hm).
    eexists. split; [exact E|]. split.
    + apply new_events_app. cbn [mnemonic_clear emit trace]. rewrite Hs.
      cbn. rewrite <- ?app_assoc. reflexivity.
    + cbn [mnemonic_clear emit config]. rewrite Hnb, Hn, Hm. cbn.
      rewrite Hc. auto.
  - intros Hsk Hno. rewrite Hsk, Hno in E. simpl orb in E. cbv iota in E.
    destruct (reset_backup_inline_answers mn s1)
      as (st2 & words & Eb & Hw & Hcase).
    exists st2, words. split; [exact Eb|]. rewrite Eb in E. split; [exact E|].
    split; [solve_new_events|]. split; [reflexivity|]. split; [exact Hw|].
    rewrite Hb1 in Hcase.
    destruct Hcase as [(Hev & (sb & -> & Hsb) & Hans) | (Hev & Hcf & Hlt & Hno')].
    + left. split; [exact Hev|].
      destruct (backup_finish_spec false mn sb)
        as (_ & _ & _ & _ & _ & _ & _ & _ & Hu & Hn & Hm).
      split; [exact Hu|]. split; [exact Hn|].
      split; [|split; [rewrite Hm, Hsb, Hc; reflexivity | exact Hans]].
      unfold backup_finish, config_setMnemonic.
      destruct (storage_accepts env mn); cbn; rewrite Hsb, Hc; reflexivity.
    + right. split; [exact Hev|]. split; [congruence|]. split; assumption.
Qed.

(** C2: while entropy is awaited, [reset_entropy] hashes the 32 bytes of the
    internal buffer followed by the bytes received, which gives 32 bytes;
    the mnemonic is derived from the first strength/8 bytes of that digest
    (16, 24 or 32 of them); and the buffer is all zero right after the
    derivation and when the handler returns. *)
Theorem reset_entropy_mixes (ext : list byte) (st : state) :
  awaiting_entropy st = true ->
  List.length (int_entropy st) = 32%nat ->
  valid_strength (strength st) ->
  let digest := sha256_Raw (int_entropy st ++ ext) in
  let n := Z.to_nat (strength st / 8) in
  List.length digest = 32%nat /\
  (n = 16 \/ n = 24 \/ n = 32)%nat /\
  List.length (firstn n digest) = n /\
  fst (entropy_mixed ext (List.length ext) st)
  = bip39_mnemonic (firstn n digest) /\
  int_entropy (snd (entropy_mixed ext (List.length ext) st))
  = repeat x00 32 /\
  exists st' evs,
    reset_entropy env ext (List.length ext) st = Some st' /\
    new_events st st' = MnemonicFromData (firstn n digest) :: evs /\
    int_entropy st' = repeat x00 32.
Proof.
  intros Ha Hlen Hs digest n.
  assert (Hd : List.length digest = 32%nat) by apply sha256_Raw_length.
  assert (Hn : (n = 16 \/ n = 24 \/ n = 32)%nat).
  { subst n. destruct Hs as [-> | [-> | ->]]; cbn; auto. }
  destruct (entropy_mixed_state ext (List.length ext) st)
    as (Hm & Ht & Hz & _ & _ & Hsk & Hno & _).
  rewrite firstn_all2 with (l := int_entropy st) in Hm, Ht by lia.
  rewrite firstn_all in Hm, Ht.
  fold digest n in Hm, Ht.
  split; [exact Hd|]. split; [exact Hn|].
  split; [rewrite length_firstn; lia|].
  split; [exact Hm|]. split; [exact Hz|].
  pose proof (reset_entropy_awaiting ext (List.length ext) st Ha) as E.
  destruct (entropy_mixed ext (List.length ext) st) as [mn s1] eqn:Em.
  simpl in Hm, Ht, Hz, Hsk, Hno.
  destruct (skip_backup st || no_backup st).
  - eexists. exists
      ((if no_backup st then [ConfigSetNoBackup]
        else [ConfigSetNeedsBackup true])
       ++ [ConfigSetMnemonic mn;
           if storage_accepts env mn
           then SendSuccess "Device successfully initialized"
           else SendFailure FailureType_Failure_ProcessError
                  (Some "Failed to store mnemonic");
           LayoutHome; MnemonicClear]).
    split; [exact E|].
    match goal with
    | |- context [store_directly env mn ?s] =>
        destruct (store_directly_spec mn s) as (Hs1 & (_ & Hi & _) & _)
    end.
    split.
    + apply new_events_app. cbn [mnemonic_clear emit trace]. rewrite Hs1.
      destruct (no_backup st); cbn; rewrite Ht, <- ?app_assoc; reflexivity.
    + cbn [mnemonic_clear emit int_entropy]. rewrite Hi.
      destruct (no_backup st); cbn; exact Hz.
  - destruct (reset_backup_runs false mn s1) as (st2 & evs & Eb & Htr & _ & Hk);
      [discriminate|].
    rewrite Eb in E. exists (mnemonic_clear st2), (evs ++ [MnemonicClear]).
    split; [exact E|]. split.
    + apply new_events_app. cbn. rewrite Htr, Ht, <- ?app_assoc. reflexivity.
    + cbn. destruct Hk as (_ & Hi & _). now rewrite Hi.
Qed.

(** C8: the passphrase protection, language, label and U2F counter of a reset
    request are written to the store only when every gate has been passed,
    and then as the last calls before the entropy request: the confirmation
    of the create-wallet dialog, that of the entropy display when it is
    shown, and the PIN set-up when it is asked for all come before them.
    When a gate is not passed, none of the four is written and the store
    holds the settings it held. *)
Theorem reset_init_settings_after_gates (display_random : bool) (_strength : Z)
  (passphrase_protection pin_protection : bool)
  (language label : option string) (u2f_counter : Z)
  (_skip_backup _no_backup : bool) (st : state) :
  let st' := reset_init env display_random _strength passphrase_protection
               pin_protection language label u2f_counter _skip_backup
               _no_backup st in
  let evs := new_events st st' in
  trace st' = trace st ++ evs /\
  ((gates_passed env display_random _strength pin_protection _skip_backup
      _no_backup st /\
    (exists pre,
       evs = pre ++ [ConfigSetPassphraseProtection passphrase_protection;
                     ConfigSetLanguage language; ConfigSetLabel label;
                     ConfigSetU2FCounter u2f_counter;
                     MsgWriteEntropyRequest] /\
       existsb writes_setting pre = false /\
       In (ProtectButton ButtonRequestType_ButtonRequest_ProtectCall false) pre /\
       (display_random = true ->
        In (ProtectButton ButtonRequestType_ButtonRequest_ResetDevice false) pre) /\
       (pin_protection = true -> In (ProtectChangePin false) pre)) /\
    settings (config st')
    = (passphrase_protection, language, label, u2f_counter))
   \/
   (~ gates_passed env display_random _strength pin_protection _skip_backup
        _no_backup st /\
    existsb writes_setting evs = false /\
    settings (config st') = settings (config st))).
Proof.
  intros st' evs.
  assert (Hinv : ~ valid_strength _strength ->
                 negb (_strength =? 128) && negb (_strength =? 192)
                 && negb (_strength =? 256) = true).
  { unfold valid_strength. intros H.
    destruct (Z.eqb_spec _strength 128); [tauto|].
    destruct (Z.eqb_spec _strength 192); [tauto|].
    destruct (Z.eqb_spec _strength 256); [tauto|]. reflexivity. }
  assert (Hval : valid_strength _strength ->
                 negb (_strength =? 128) && negb (_strength =? 192)
                 && negb (_strength =? 256) = false).
  { intros [-> | [-> | ->]]; reflexivity. }
  assert (Hdec : valid_strength _strength \/ ~ valid_strength _strength).
  { unfold valid_strength.
    destruct (Z.eqb_spec _strength 128); [tauto|].
    destruct (Z.eqb_spec _strength 192); [tauto|].
    destruct (Z.eqb_spec _strength 256); tauto. }
  subst evs st'. unfold reset_init, gates_passed.
  destruct Hdec as [Hv | Hv].
  2:{ rewrite (Hinv Hv). unfold new_events. rewrite skipn_all, app_nil_r.
      split; [reflexivity|]. right. split; [tauto|]. auto. }
  rewrite (Hval Hv). clear Hinv Hval.
  unfold protectButton, protectChangePin, random_buffer.
  cbn -[firstn skipn map seq data2hex new_events].
  destruct (display_random && (_skip_backup || _no_backup)) eqn:D.
  { new_events_norm. split; [reflexivity|]. right.
    split; [intros (_ & H & _); discriminate | split; reflexivity]. }
  destruct (button_answer env (buttons_asked st)) eqn:B1;
    cbn -[firstn skipn map seq data2hex new_events].
  2:{ new_events_norm. split; [reflexivity|]. right.
      split; [intros (_ & _ & H & _); discriminate | split; reflexivity]. }
  assert (B2 : display_random = false \/
               (display_random = true /\
                exists b, button_answer env (S (buttons_asked st)) = b)).
  { destruct display_random; eauto. }
  destruct B2 as [-> | (-> & [[] B2])];
    cbn -[firstn skipn map seq data2hex new_events];
    rewrite ?B2; cbn -[firstn skipn map seq data2hex new_events].
  3:{ new_events_norm. split; [reflexivity|]. right.
      split; [intros (_ & _ & _ & H & _); specialize (H eq_refl); discriminate
             | split; reflexivity]. }
  all: assert (P : pin_protection = false \/
                   (pin_protection = true /\
                    exists b, pin_change_ok env (pins_asked st) = b))
         by (destruct pin_protection; eauto);
    destruct P as [-> | (-> & [[] P])];
    cbn -[firstn skipn map seq data2hex new_events];
    rewrite ?P; cbn -[firstn skipn map seq data2hex new_events];
    new_events_norm; (split; [reflexivity|]).
  all: try (right;
            split; [intros (_ & _ & _ & _ & H); specialize (H eq_refl);
                    discriminate | split; reflexivity]).
  all: left; (split; [repeat split; auto; discriminate|]);
    (split; [|reflexivity]);
    match goal with
    | |- exists pre, ?l = pre ++ _ /\ _ =>
        exists (firstn (List.length l - 5) l)
    end;
    (split; [reflexivity|]); cbn; intuition (auto; discriminate).
Qed.

(** A reset request that is well formed but stopped at a gate: the home
    screen is the last thing laid out, and the request is not pending. Stopped
    before the generator is called, it leaves the entropy buffer alone. *)
Lemma reset_init_stopped (display_random : bool) (_strength : Z)
  (passphrase_protection pin_protection : bool)
  (language label : option string) (u2f_counter : Z)
  (_skip_backup _no_backup : bool) (st : state) :
  valid_strength _strength ->
  ~ gates_passed env display_random _strength pin_protection _skip_backup
      _no_backup st ->
  let st' := reset_init env display_random _strength passphrase_protection
               pin_protection language label u2f_counter _skip_backup
               _no_backup st in
  (exists pre, new_events st st' = pre ++ [LayoutHome]) /\
  awaiting_entropy st' = awaiting_entropy st /\
  current_word st' = current_word st /\
  config st' = config st /\
  (button_answer env (buttons_asked st) = false ->
   int_entropy st' = int_entropy st /\ random_drawn st' = random_drawn st).
Proof.
  intros Hv Hg st'. subst st'. unfold reset_init, gates_passed in *.
  assert (Hval : negb (_strength =? 128) && negb (_strength =? 192)
                 && negb (_strength =? 256) = false).
  { destruct Hv as [-> | [-> | ->]]; reflexivity. }
  rewrite Hval.
  unfold protectButton, protectChangePin, random_buffer.
  cbn -[firstn skipn map seq data2hex new_events].
  destruct (display_random && (_skip_backup || _no_backup)) eqn:D.
  { new_events_norm. split; [|auto].
    eexists [_]. reflexivity. }
  destruct (button_answer env (buttons_asked st)) eqn:B1;
    cbn -[firstn skipn map seq data2hex new_events].
  2:{ new_events_norm. split; [|auto]. eexists [_; _; _]. reflexivity. }
  assert (B2 : display_random = false \/
               (display_random = true /\
                exists b, button_answer env (S (buttons_asked st)) = b)).
  { destruct display_random; eauto. }
  destruct B2 as [-> | (-> & [[] B2])];
    cbn -[firstn skipn map seq data2hex new_events];
    rewrite ?B2; cbn -[firstn skipn map seq data2hex new_events].
  3:{ new_events_norm. split; [|repeat split; auto; discriminate].
      eexists [_; _; _; _; _; _]. reflexivity. }
  all: assert (P : pin_protection = false \/
                   (pin_protection = true /\
                    exists b, pin_change_ok env (pins_asked st) = b))
         by (destruct pin_protection; eauto);
    destruct P as [-> | (-> & [[] P])];
    cbn -[firstn skipn map seq data2hex new_events];
    rewrite ?P; cbn -[firstn skipn map seq data2hex new_events].
  all: try (exfalso; apply Hg; repeat split; auto; discriminate).
  all: new_events_norm; (split; [|repeat split; auto; discriminate]).
  - eexists [_; _; _; _]. reflexivity.
  - eexists [_; _; _; _; _; _]. reflexivity.
Qed.

Lemma finish_events_home (separated : bool) (m : list ascii) :
  exists pre, finish_events env separated m = pre ++ [LayoutHome].
Proof. unfold finish_events. eexists (_ :: _). reflexivity. Qed.

(** [reset_entropy] while entropy is awaited: it ends, lays out the home
    screen on the way, clears the pending flag and the entropy buffer. *)
Lemma reset_entropy_runs (ext : list byte) (len : nat) (st : state) :
  awaiting_entropy st = true ->
  exists st',
    reset_entropy env ext len st = Some st' /\
    In LayoutHome (new_events st st') /\
    awaiting_entropy st' = false /\
    int_entropy st' = repeat x00 32.
Proof.
  intros Ha.
  pose proof (reset_entropy_awaiting ext len st Ha) as E.
  destruct (entropy_mixed_state ext len st)
    as (_ & Ht & Hz & Haw & _).
  destruct (entropy_mixed ext len st) as [mn s1] eqn:Em.
  cbn [fst snd] in Ht, Hz, Haw.
  destruct (skip_backup st || no_backup st).
  - eexists. split; [exact E|].
    match goal with
    | |- context [store_directly env mn ?s] =>
        destruct (store_directly_spec mn s) as (Hs1 & (_ & Hi & Hw & _) & _);
        assert (Hs : trace s = trace s1 ++ [if no_backup st
                                            then ConfigSetNoBackup
                                            else ConfigSetNeedsBackup true]
                     /\ int_entropy s = int_entropy s1
                     /\ awaiting_entropy s = awaiting_entropy s1)
          by (destruct (no_backup st); cbn; auto)
    end.
    destruct Hs as (Hs & Hi' & Hw').
    split; [|split].
    + erewrite new_events_app.
      2:{ cbn [mnemonic_clear emit trace]. rewrite Hs1, Hs, Ht.
          rewrite <- !app_assoc. reflexivity. }
      cbn. auto 10.
    + cbn [mnemonic_clear emit awaiting_entropy]. congruence.
    + cbn [mnemonic_clear emit int_entropy]. congruence.
  - destruct (reset_backup_runs false mn s1)
      as (st2 & evs & Eb & Htr & Hin & (_ & Hi & Hw & _)); [discriminate|].
    rewrite Eb in E. exists (mnemonic_clear st2). split; [exact E|].
    split; [|split].
    + erewrite new_events_app.
      2:{ cbn [mnemonic_clear emit trace]. rewrite Htr, Ht.
          rewrite <- !app_assoc. reflexivity. }
      apply in_or_app; right. apply in_or_app; left. exact Hin.
    + cbn [mnemonic_clear emit awaiting_entropy]. congruence.
    + cbn [mnemonic_clear emit int_entropy]. congruence.
Qed.

(** C1, as amended: on every way out of [reset_entropy] taken while entropy
    is awaited (mnemonic stored or refused by the store, inline backup
    completed or cancelled) the 32-byte internal entropy buffer is all zero
    when the handler returns. A reset cancelled at the create-wallet
    confirmation draws no entropy and leaves the entropy buffer and the word
    buffer as they were. *)
Theorem secret_buffers_on_exit :
  (forall (ext : list byte) (len : nat) (st : state),
     awaiting_entropy st = true ->
     exists st',
       reset_entropy env ext len st = Some st' /\
       int_entropy st' = repeat x00 32)
  /\
  (forall (display_random : bool) (_strength : Z)
          (passphrase_protection pin_protection : bool)
          (language label : option string) (u2f_counter : Z)
          (_skip_backup _no_backup : bool) (st : state),
     valid_strength _strength ->
     button_answer env (buttons_asked st) = false ->
     let st' := reset_init env display_random _strength passphrase_protection
                  pin_protection language label u2f_counter _skip_backup
                  _no_backup st in
     int_entropy st' = int_entropy st /\
     random_drawn st' = random_drawn st /\
     current_word st' = current_word st).
Proof.
  split.
  - intros ext len st Ha.
    destruct (reset_entropy_runs ext len st Ha) as (st' & E & _ & _ & Hz).
    eauto.
  - intros dr s pp pin lang lab u2f sk nb st Hv Hb st'.
    destruct (reset_init_stopped dr s pp pin lang lab u2f sk nb st Hv)
      as (_ & _ & Hcw & _ & Hi).
    { unfold gates_passed. intros (_ & _ & H & _). congruence. }
    destruct (Hi Hb). auto.
Qed.

(** C7, as amended: a reset request stopped at a gate, every way out of
    [reset_entropy] taken while entropy is awaited and every way out of
    [reset_backup] past its entry check lay out the home screen before the
    handler returns; a stopped reset request leaves the pending flag as it
    was, [reset_entropy] clears it, a cancelled inline backup wipes the
    session and a cancelled separate backup leaves unfinished_backup true.
    The two unexpected-message rejections ([reset_entropy] while no entropy
    is awaited, a separate [reset_backup] while needs_backup is false) send
    the failure and do nothing else: the home screen is not laid out, the
    session and the store are unchanged. *)
Theorem error_paths_return_home :
  (forall (display_random : bool) (_strength : Z)
          (passphrase_protection pin_protection : bool)
          (language label : option string) (u2f_counter : Z)
          (_skip_backup _no_backup : bool) (st : state),
     valid_strength _strength ->
     ~ gates_passed env display_random _strength pin_protection _skip_backup
         _no_backup st ->
     let st' := reset_init env display_random _strength passphrase_protection
                  pin_protection language label u2f_counter _skip_backup
                  _no_backup st in
     (exists pre, new_events st st' = pre ++ [LayoutHome]) /\
     awaiting_entropy st' = awaiting_entropy st)
  /\
  (forall (ext : list byte) (len : nat) (st : state),
     awaiting_entropy st = true ->
     exists st',
       reset_entropy env ext len st = Some st' /\
       In LayoutHome (new_events st st') /\
       awaiting_entropy st' = false)
  /\
  (forall (separated : bool) (m : list ascii) (st : state),
     (separated = true -> cfg_needs_backup (config st) = true) ->
     exists st',
       reset_backup env separated m st = Some st' /\
       In LayoutHome (new_events st st') /\
       keeps_session st st' /\
       ((exists pre,
           new_events st st'
           = pre ++ (if separated then [] else [SessionClear true])
             ++ [LayoutHome;
                 SendFailure FailureType_Failure_ActionCancelled None]) /\
        (separated = true -> cfg_unfinished_backup (config st') = true) /\
        (separated = false -> config st' = config st)
        \/
        (exists pre, new_events st st' = pre ++ [LayoutHome]) /\
        cfg_unfinished_backup (config st') = false))
  /\
  (forall (ext : list byte) (len : nat) (st : state),
     awaiting_entropy st = false ->
     exists st',
       reset_entropy env ext len st = Some st' /\
       new_events st st'
       = [SendFailure FailureType_Failure_UnexpectedMessage
            (Some "Not in Reset mode")] /\
       ~ In LayoutHome (new_events st st') /\
       keeps_session st st' /\ config st' = config st)
  /\
  (forall (m : list ascii) (st : state),
     cfg_needs_backup (config st) = false ->
     exists st',
       reset_backup env true m st = Some st' /\
       new_events st st'
       = [SendFailure FailureType_Failure_UnexpectedMessage
            (Some "Seed already backed up")] /\
       ~ In LayoutHome (new_events st st') /\
       keeps_session st st' /\ config st' = config st).
Proof.
  split; [|split; [|split; [|split]]].
  - intros dr s pp pin lang lab u2f sk nb st Hv Hg st'.
    destruct (reset_init_stopped dr s pp pin lang lab u2f sk nb st Hv Hg)
      as (Hh & Ha & _). auto.
  - intros ext len st Ha.
    destruct (reset_entropy_runs ext len st Ha) as (st' & E & Hin & Hw & _).
    eauto.
  - intros separated m st Hn.
    destruct (reset_backup_runs separated m st Hn)
      as (st' & evs & E & Ht & Hin & Hk).
    exists st'. split; [exact E|].
    rewrite (new_events_app _ _ _ Ht). split; [exact Hin|]. split; [exact Hk|].
    destruct (reset_backup_cases env separated m st)
      as [(Hs & Hnb & _) | (_ & st2 & Hk2 & Hcase)].
    { rewrite (Hn Hs) in Hnb. discriminate. }
    assert (H1 : exists e1,
               trace (if separated then backup_entry st else st)
               = trace st ++ e1).
    { destruct separated.
      - destruct (backup_entry_spec st) as (H & _). eauto.
      - exists []. now rewrite app_nil_r. }
    destruct H1 as (e1 & H1).
    destruct Hcase as [(E2 & pre & Hc) | E2]; rewrite E in E2;
      injection E2 as ->.
    + left. split; [|split].
      * exists (e1 ++ pre). rewrite Hc, H1, <- !app_assoc in Ht.
        apply app_inv_head in Ht. now rewrite <- Ht, <- !app_assoc.
      * intros ->. destruct Hk2 as [_ _ _ _ _ Hc2 _]. rewrite Hc2.
        apply backup_entry_spec.
      * intros ->. now destruct Hk2.
    + right. destruct (backup_finish_spec separated m st2)
        as (Hf & _ & _ & _ & _ & _ & _ & _ & Hu & _).
      split; [|exact Hu].
      destruct Hk2 as [_ _ _ _ _ _ (e2 & Ht2)].
      destruct (finish_events_home separated m) as (p & Hp).
      rewrite Hf, Ht2, H1, Hp in Ht.
      rewrite <- !app_assoc in Ht. apply app_inv_head in Ht.
      rewrite <- Ht. exists (e1 ++ e2 ++ p). now rewrite <- !app_assoc.
  - intros ext len st Ha. unfold reset_entropy. rewrite Ha. simpl negb.
    cbv iota. eexists. split; [reflexivity|].
    new_events_norm.
    split; [reflexivity|]. split; [|unfold keeps_session; auto 6].
    intros [H|[]]. discriminate.
  - intros m st Hn. unfold reset_backup, config_getNeedsBackup. rewrite Hn.
    simpl negb. cbv iota. eexists. split; [reflexivity|].
    new_events_norm.
    split; [reflexivity|]. split; [|unfold keeps_session; auto 6].
    intros [H|[]]. discriminate.
Qed.

(** C6: for a mnemonic whose words fit the word buffer, a backup in which
    every word is confirmed goes through the space-delimited tokens of the
    mnemonic twice, in order: all of them with pass 0, then all of them with
    pass 1. In each pass the first word is laid out with position 1 and each
    confirmed word moves the position on by one, and the last-word flag is
    set for the word that ends the mnemonic and for no other. The backup then
    finishes. *)
Theorem reset_backup_two_passes (separated : bool) (m : list ascii)
  (st : state) :
  is_c_string m ->
  words_fit m ->
  List.length (current_word st) = sizeof_current_word ->
  (separated = true -> cfg_needs_backup (config st) = true) ->
  (forall k, (k < 2 * List.length (tokens m))%nat ->
             button_answer env (buttons_asked st + k) = true) ->
  exists st',
    reset_backup env separated m st = Some st' /\
    new_events st st'
    = (if separated
       then [ConfigSetUnfinishedBackup true; ConfigSetNeedsBackup false]
       else [])
      ++ word_events 0 1 (tokens m)
      ++ word_events 1 1 (tokens m)
      ++ finish_events env separated m /\
    buttons_asked st' = (buttons_asked st + 2 * List.length (tokens m))%nat.
Proof.
  intros Hc Hfit Hcw Hn Hb.
  set (st1 := if separated then backup_entry st else st).
  assert (H1 : trace st1
               = trace st ++ (if separated
                              then [ConfigSetUnfinishedBackup true;
                                    ConfigSetNeedsBackup false]
                              else [])
               /\ current_word st1 = current_word st
               /\ buttons_asked st1 = buttons_asked st).
  { subst st1. destruct separated.
    - destruct (backup_entry_spec st) as (Ht & _). rewrite Ht. auto.
    - rewrite app_nil_r. auto. }
  destruct H1 as (Ht1 & Hcw1 & Hb1).
  destruct (word_loop_confirmed env separated m 0 (List.length m) 0 1 st1)
    as (sa & Ea & _ & Hta & Hba & Hcwa); auto.
  { rewrite Hcw1. exact Hcw. }
  { intros k Hk. rewrite Hb1. apply Hb. simpl skipn in Hk. lia. }
  destruct (word_loop_confirmed env separated m 1 (List.length m) 0 1 sa)
    as (sb & Eb & _ & Htb & Hbb & Hcwb); auto.
  { intros k Hk. rewrite Hba, Hb1, <- Nat.add_assoc. apply Hb.
    simpl skipn in *. lia. }
  simpl skipn in *.
  destruct (backup_finish_spec separated m sb)
    as (Hf & _ & _ & _ & _ & _ & _ & Hbf & _).
  exists (backup_finish env separated m sb).
  assert (E : reset_backup env separated m st
              = Some (backup_finish env separated m sb)).
  { unfold reset_backup, config_getNeedsBackup.
    destruct separated.
    - rewrite (Hn eq_refl). simpl negb. cbv iota.
      fold (backup_entry st). change (backup_entry st) with st1.
      cbn -[word_loop]. rewrite Ea. cbn -[word_loop]. rewrite Eb. reflexivity.
    - change st with st1 at 1.
      cbn -[word_loop]. rewrite Ea. cbn -[word_loop]. rewrite Eb. reflexivity. }
  split; [exact E|]. split.
  - apply new_events_app. rewrite Hf, Htb, Hta, Ht1.
    now rewrite <- !app_assoc.
  - rewrite Hbf, Hbb, Hba, Hb1. lia.
Qed.

(** *** The handlers always return *)

(** The fuel [reset_backup] gives its loops is enough on every mnemonic. *)
Lemma reset_backup_total (separated : bool) (m : list ascii) (st : state) :
  exists st', reset_backup env separated m st = Some st'.
Proof.
  destruct (reset_backup_cases env separated m st)
    as [(_ & _ & E) | (_ & st2 & _ & [(E & _) | E])]; eauto.
Qed.

Lemma reset_entropy_total (ext : list byte) (len : nat) (st : state) :
  exists st', reset_entropy env ext len st = Some st'.
Proof.
  destruct (awaiting_entropy st) eqn:Ha.
  - destruct (reset_entropy_runs ext len st Ha) as (st' & E & _). eauto.
  - unfold reset_entropy. rewrite Ha. simpl negb. cbv iota. eauto.
Qed.

(** *** The states the handlers can reach *)

Lemma copy_current_word_length (m : list ascii) :
  forall fuel i j cw i' j' cw',
    copy_current_word fuel m i j cw = Some (i', j', cw') ->
    List.length cw' = List.length cw.
Proof.
  induction fuel as [|fuel IH]; intros i j cw i' j' cw'; simpl;
    destruct (negb (Ascii.eqb (char_at m i) SPACE)
              && negb (Ascii.eqb (char_at m i) NUL)
              && (j + 1 <? sizeof_current_word)%nat);
    intros H; try discriminate; try (now inversion H).
  apply IH in H. now rewrite store_length in H.
Qed.

Lemma word_loop_length (separated : bool) (m : list ascii) (pass : nat) :
  forall fuel i word_pos st r,
    word_loop env fuel separated m pass i word_pos st = Some r ->
    List.length (current_word (flow_state r)) = List.length (current_word st).
Proof.
  induction fuel as [|fuel IH]; intros i wp st r.
  - simpl. destruct (Ascii.eqb (char_at m i) NUL); [|discriminate].
    intros H; now inversion H.
  - rewrite word_loop_S. destruct (Ascii.eqb (char_at m i) NUL).
    { intros H; now inversion H. }
    destruct (copy_current_word sizeof_current_word m i 0 (current_word st))
      as [[[i' j'] cw']|] eqn:E; [|discriminate].
    apply copy_current_word_length in E.
    unfold protectButton. cbn -[word_loop].
    destruct (button_answer env (buttons_asked st)); cbn -[word_loop].
    + intros H. apply IH in H. rewrite H. cbn. now rewrite store_length.
    + intros H. inversion H. destruct separated; cbn; now rewrite store_length.
Qed.

Lemma reset_backup_length (separated : bool) (m : list ascii) (st st' : state) :
  reset_backup env separated m st = Some st' ->
  List.length (current_word st') = List.length (current_word st).
Proof.
  unfold reset_backup, config_getNeedsBackup.
  set (st1 := if separated
              then if negb (cfg_needs_backup (config st))
                   then Return (fsm_sendFailure
                                  FailureType_Failure_UnexpectedMessage
                                  (Some "Seed already backed up") st)
                   else Next (config_setNeedsBackup false
                                (config_setUnfinishedBackup true st))
              else Next st).
  assert (H1 : List.length (current_word (flow_state st1))
               = List.length (current_word st)).
  { subst st1. destruct separated;
      [destruct (cfg_needs_backup (config st))|]; reflexivity. }
  destruct st1 as [s1|s1]; [|intros H; inversion H; subst; exact H1].
  cbn [flow_state] in H1. cbn -[word_loop].
  destruct (word_loop env (List.length m) separated m 0 0 1 s1)
    as [[sa|sa]|] eqn:Ea; [| |discriminate].
  2:{ intros H; inversion H; subst.
      apply word_loop_length in Ea. cbn in Ea. congruence. }
  apply word_loop_length in Ea. cbn [flow_state] in Ea.
  destruct (word_loop env (List.length m) separated m 1 0 1 sa)
    as [[sb|sb]|] eqn:Eb; [| |discriminate].
  2:{ intros H; inversion H; subst.
      apply word_loop_length in Eb. cbn in Eb. congruence. }
  apply word_loop_length in Eb. cbn [flow_state] in Eb.
  fold (backup_finish env separated m sb).
  intros H; inversion H; subst.
  destruct (backup_finish_spec separated m sb)
    as (_ & _ & _ & _ & _ & _ & Hcw & _).
  congruence.
Qed.

Lemma well_formed_initial : well_formed initial_state.
Proof. repeat split. discriminate. Qed.

Lemma reset_init_well_formed (display_random : bool) (_strength : Z)
  (passphrase_protection pin_protection : bool)
  (language label : option string) (u2f_counter : Z)
  (_skip_backup _no_backup : bool) (st : state) :
  well_formed st ->
  well_formed (reset_init env display_random _strength passphrase_protection
                 pin_protection language label u2f_counter _skip_backup
                 _no_backup st).
Proof.
  intros (Hi & Hc & Hs). unfold reset_init.
  destruct (negb (_strength =? 128) && negb (_strength =? 192)
            && negb (_strength =? 256)) eqn:V.
  { repeat split; auto. }
  assert (Hv : valid_strength _strength).
  { unfold valid_strength.
    destruct (Z.eqb_spec _strength 128); [tauto|].
    destruct (Z.eqb_spec _strength 192); [tauto|].
    destruct (Z.eqb_spec _strength 256); [tauto|]. discriminate. }
  assert (Hr : forall k, List.length
                 (map (random_byte env) (seq k 32) ++ skipn 32 (int_entropy st))
               = 32%nat).
  { intros k. rewrite length_app, length_map, length_seq, length_skipn.
    unfold sizeof_int_entropy in Hi. lia. }
  unfold protectButton, protectChangePin, random_buffer, well_formed.
  cbn -[firstn skipn map seq data2hex].
  destruct (display_random && (_skip_backup || _no_backup));
    [cbn; auto|].
  destruct (button_answer env (buttons_asked st));
    cbn -[firstn skipn map seq data2hex]; [|auto].
  destruct display_random; cbn -[firstn skipn map seq data2hex];
    [destruct (button_answer env (S (buttons_asked st)));
     cbn -[firstn skipn map seq data2hex]; [|auto]|];
    (destruct pin_protection; cbn -[firstn skipn map seq data2hex];
     [destruct (pin_change_ok env (pins_asked st));
      cbn -[firstn skipn map seq data2hex]|]); auto.
Qed.

Lemma reset_backup_well_formed (separated : bool) (m : list ascii)
  (st st' : state) :
  well_formed st -> reset_backup env separated m st = Some st' ->
  well_formed st'.
Proof.
  intros (Hi & Hc & Hs) E.
  pose proof (reset_backup_length _ _ _ _ E) as Hl.
  assert (Hk : keeps_session st st').
  { destruct (cfg_needs_backup (config st)) eqn:Hn.
    - destruct (reset_backup_runs separated m st (fun _ => Hn))
        as (s & _ & E' & _ & _ & Hk). congruence.
    - destruct separated.
      + unfold reset_backup, config_getNeedsBackup in E. rewrite Hn in E.
        inversion E. unfold keeps_session. auto.
      + destruct (reset_backup_runs false m st)
          as (s & _ & E' & _ & _ & Hk); [discriminate|congruence]. }
  destruct Hk as (k1 & k2 & k3 & _).
  unfold well_formed. rewrite k1, k2, k3, Hl. auto.
Qed.

Lemma reset_entropy_well_formed (ext : list byte) (len : nat)
  (st st' : state) :
  well_formed st -> reset_entropy env ext len st = Some st' ->
  well_formed st'.
Proof.
  intros (Hi & Hc & Hs) E.
  destruct (awaiting_entropy st) eqn:Ha.
  - destruct (reset_entropy_runs ext len st Ha) as (s & E' & _ & Hw & Hz).
    assert (s = st') by congruence. subst s.
    unfold well_formed. rewrite Hw, Hz. split; [reflexivity|].
    split; [|discriminate].
    rewrite (reset_entropy_awaiting ext len st Ha) in E.
    destruct (entropy_mixed_state ext len st)
      as (_ & _ & _ & _ & _ & _ & _ & _ & Hcw).
    destruct (entropy_mixed ext len st) as [mn s1]. cbn [snd] in Hcw.
    destruct (skip_backup st || no_backup st).
    + inversion E.
      match goal with
      | |- context [store_directly env mn ?s] =>
          destruct (store_directly_spec mn s) as (_ & _ & Hw' & _)
      end.
      cbn [mnemonic_clear emit current_word]. rewrite Hw'.
      destruct (no_backup st); cbn; congruence.
    + destruct (reset_backup env false mn s1) as [s2|] eqn:Eb; [|discriminate].
      inversion E. cbn. apply reset_backup_length in Eb. congruence.
  - unfold reset_entropy in E. rewrite Ha in E. simpl negb in E.
    cbv iota in E. inversion E. unfold well_formed. cbn.
    rewrite Ha. auto.
Qed.

End Handlers.

(** * Further properties of the handlers *)

(** Boolean tests for the two conditions on a mnemonic. *)
Lemma is_c_string_test (m : list ascii) :
  forallb (fun c => negb (Ascii.eqb c NUL)) m = true -> is_c_string m.
Proof.
  intros H Hin. rewrite forallb_forall in H. apply H in Hin.
  now rewrite Ascii.eqb_refl in Hin.
Qed.

Lemma words_fit_test (m : list ascii) :
  forallb (fun w => (List.length w <? sizeof_current_word)%nat) (tokens m)
  = true ->
  words_fit m.
Proof.
  intros H. apply Forall_forall. intros w Hin.
  rewrite forallb_forall in H. apply H in Hin. now apply Nat.ltb_lt.
Qed.

Section Calls.
Context {prims : Primitives}.
Variable env : environment.

(** ** The word loop on an arbitrary mnemonic *)

Lemma char_at_in_text (m : list ascii) (i : nat) :
  char_at m i <> NUL -> skipn i m = char_at m i :: skipn (S i) m.
Proof.
  unfold char_at. revert i. induction m as [|c m IH]; intros [|i] H; simpl in *;
    try congruence.
  now apply IH.
Qed.

Lemma chars_are_piece (m : list ascii) :
  forall n i,
    ~ In NUL (map (char_at m) (seq i n)) ->
    map (char_at m) (seq i n) = firstn n (skipn i m).
Proof.
  induction n as [|n IH]; intros i H; [reflexivity|].
  simpl in H. rewrite char_at_in_text by (intros E; apply H; now left).
  simpl. f_equal. apply IH. intros Hin. apply H. now right.
Qed.

(** The inner loop, whatever the text: it copies the characters it passes,
    none of them a space or a NUL, and stays inside the buffer. *)
Lemma copy_current_word_segment (m : list ascii) :
  forall fuel i j cw i' j' cw',
    List.length cw = sizeof_current_word ->
    (j < sizeof_current_word)%nat ->
    copy_current_word fuel m i j cw = Some (i', j', cw') ->
    (j <= j' < sizeof_current_word)%nat /\
    i' = (i + (j' - j))%nat /\
    List.length cw' = sizeof_current_word /\
    firstn j' cw' = firstn j cw ++ map (char_at m) (seq i (j' - j)) /\
    Forall (fun c => c <> SPACE /\ c <> NUL) (map (char_at m) (seq i (j' - j))).
Proof.
  induction fuel as [|fuel IH]; intros i j cw i' j' cw' Hcw Hj; simpl.
  - destruct (negb (Ascii.eqb (char_at m i) SPACE)
              && negb (Ascii.eqb (char_at m i) NUL)
              && (j + 1 <? sizeof_current_word)%nat); [discriminate|].
    intros H; inversion H; subst. rewrite Nat.sub_diag, Nat.add_0_r. simpl.
    rewrite app_nil_r. repeat split; auto.
  - destruct (Ascii.eqb_spec (char_at m i) SPACE) as [Es|Es]; simpl.
    { intros H; inversion H; subst. rewrite Nat.sub_diag, Nat.add_0_r. simpl.
      rewrite app_nil_r. repeat split; auto. }
    destruct (Ascii.eqb_spec (char_at m i) NUL) as [En|En]; simpl.
    { intros H; inversion H; subst. rewrite Nat.sub_diag, Nat.add_0_r. simpl.
      rewrite app_nil_r. repeat split; auto. }
    destruct (Nat.ltb_spec (j + 1) sizeof_current_word) as [Hlt|Hge].
    2:{ intros H; inversion H; subst. rewrite Nat.sub_diag, Nat.add_0_r. simpl.
        rewrite app_nil_r. repeat split; auto. }
    intros H. apply IH in H; [|now rewrite store_length|lia].
    destruct H as (Hjj & Hi' & Hl & Hf & Hall).
    replace (j' - j)%nat with (S (j' - (j + 1))) by lia.
    simpl seq. simpl map. replace (S i) with (i + 1)%nat by lia.
    split; [lia|]. split; [lia|]. split; [exact Hl|]. split.
    + rewrite Hf, firstn_store by lia. now rewrite <- app_assoc.
    + constructor; auto.
Qed.

Lemma last_shown_app (a b : list event) :
  last_shown (a ++ b)
  = match last_shown b with Some w => Some w | None => last_shown a end.
Proof.
  induction a as [|e a IH]; simpl.
  - now destruct (last_shown b).
  - rewrite IH. now destruct (last_shown b).
Qed.

Lemma tracks_app (cw cw1 cw2 : list ascii) (a b : list event) :
  tracks cw a cw1 -> tracks cw1 b cw2 -> tracks cw (a ++ b) cw2.
Proof.
  unfold tracks. rewrite last_shown_app.
  destruct (last_shown b); auto.
  intros Ha ->. exact Ha.
Qed.

(** The word loop, whatever the mnemonic and the answers: up to the point
    where it ends it only lays out words and asks for their confirmation;
    the words are pieces of the mnemonic that fit the buffer; and the buffer
    holds the last of them. *)
Lemma word_loop_calls (separated : bool) (m : list ascii) (pass : nat) :
  forall fuel i word_pos st r,
    List.length (current_word st) = sizeof_current_word ->
    word_loop env fuel separated m pass i word_pos st = Some r ->
    exists pre,
      Forall (word_call m) pre /\
      trace (flow_state r) = trace st ++ pre ++ loop_tail separated r /\
      tracks (current_word st) pre (current_word (flow_state r)) /\
      List.length (current_word (flow_state r)) = sizeof_current_word /\
      config (flow_state r) = config st.
Proof.
  induction fuel as [|fuel IH]; intros i wp st r Hcw.
  - simpl. destruct (Ascii.eqb (char_at m i) NUL); [|discriminate].
    intros H; inversion H; subst. exists []. simpl.
    rewrite app_nil_r. repeat split; auto.
  - rewrite word_loop_S. destruct (Ascii.eqb (char_at m i) NUL).
    { intros H; inversion H; subst. exists []. simpl.
      rewrite app_nil_r. repeat split; auto. }
    destruct (copy_current_word sizeof_current_word m i 0 (current_word st))
      as [[[i' j'] cw']|] eqn:E; [|discriminate].
    apply copy_current_word_segment in E;
      [|exact Hcw|unfold sizeof_current_word; lia].
    destruct E as (Hj & Hi' & Hl & Hf & Hall).
    rewrite Nat.sub_0_r in *. simpl in Hf.
    set (w := map (char_at m) (seq i j')) in *.
    assert (Hlw : List.length w = j').
    { subst w. now rewrite length_map, length_seq. }
    assert (Hnul : ~ In NUL w).
    { intros Hin. rewrite Forall_forall in Hall. now apply Hall in Hin. }
    assert (Hsp : ~ In SPACE w).
    { intros Hin. rewrite Forall_forall in Hall. now apply Hall in Hin. }
    assert (Hstr : c_str (store cw' j' NUL) = w).
    { rewrite <- Hlw. apply c_str_store_after; auto; rewrite Hlw; auto. lia. }
    assert (Hpiece : piece_of m w).
    { exists i. rewrite Hlw. subst w. now apply chars_are_piece. }
    unfold protectButton, layoutResetWord. cbn -[word_loop].
    rewrite Hstr.
    set (i2 := if negb (Ascii.eqb (char_at m i') NUL) then (i' + 1)%nat else i').
    set (shown := LayoutResetWord w pass wp (Ascii.eqb (char_at m i2) NUL)).
    assert (Hshown : word_call m shown).
    { simpl. rewrite Hlw. repeat split; auto. lia. }
    destruct (button_answer env (buttons_asked st)); cbn -[word_loop].
    + intros H. apply IH in H; [|cbn; now rewrite store_length].
      destruct H as (pre & Hpre & Ht & Htr & Hlen & Hc).
      exists (shown
              :: ProtectButton ButtonRequestType_ButtonRequest_ConfirmWord true
              :: pre).
      split; [constructor; [exact Hshown|constructor; [exact I|exact Hpre]]|].
      split; [rewrite Ht; cbn; now rewrite <- !app_assoc|].
      split; [|split; [exact Hlen | rewrite Hc; reflexivity]].
      change (shown :: ProtectButton ButtonRequestType_ButtonRequest_ConfirmWord
                         true :: pre)
        with ([shown; ProtectButton ButtonRequestType_ButtonRequest_ConfirmWord
                         true] ++ pre).
      eapply tracks_app; [|exact Htr].
      unfold tracks. cbn. exact Hstr.
    + intros H; inversion H; subst r. clear H.
      exists [shown;
              ProtectButton ButtonRequestType_ButtonRequest_ConfirmWord true].
      split; [constructor; [exact Hshown|constructor; [exact I|constructor]]|].
      destruct separated; cbn; rewrite <- ?app_assoc; cbn;
        rewrite store_length; repeat split; auto.
Qed.


(** ** The calls of [reset_backup] *)

(** How [reset_backup] ends, with everything it called: the entry check
    rejects the call; or a word is declined; or both passes are confirmed. *)
Lemma reset_backup_calls (separated : bool) (m : list ascii) (st st' : state) :
  List.length (current_word st) = sizeof_current_word ->
  reset_backup env separated m st = Some st' ->
  (separated = true /\ cfg_needs_backup (config st) = false /\
   st' = fsm_sendFailure FailureType_Failure_UnexpectedMessage
           (Some "Seed already backed up") st)
  \/
  ((separated = true -> cfg_needs_backup (config st) = true) /\
   exists pre,
     Forall (word_call m) pre /\
     tracks (current_word st) pre (current_word st') /\
     ((new_events st st'
       = entry_events separated ++ pre
         ++ (if separated then [] else [SessionClear true])
         ++ [LayoutHome; SendFailure FailureType_Failure_ActionCancelled None]
       /\ config st' = config (if separated then backup_entry st else st))
      \/
      (new_events st st'
       = entry_events separated ++ pre ++ finish_events env separated m
       /\ exists sb,
            st' = backup_finish env separated m sb /\
            config sb = config (if separated then backup_entry st else st)))).
Proof.
  intros Hcw. unfold reset_backup, config_getNeedsBackup.
  set (st1 := if separated then backup_entry st else st).
  assert (H1 : trace st1 = trace st ++ entry_events separated /\
               current_word st1 = current_word st).
  { subst st1. unfold entry_events. destruct separated.
    - destruct (backup_entry_spec st) as (Ht & _). auto.
    - now rewrite app_nil_r. }
  destruct H1 as (Ht1 & Hcw1).
  assert (Hgo :
    match pass_loop env 2 separated m 0 st1 with
    | None => None
    | Some (Return st0) => Some st0
    | Some (Next st0) => Some (backup_finish env separated m st0)
    end = Some st' ->
    exists pre,
      Forall (word_call m) pre /\
      tracks (current_word st) pre (current_word st') /\
      ((new_events st st'
        = entry_events separated ++ pre
          ++ (if separated then [] else [SessionClear true])
          ++ [LayoutHome; SendFailure FailureType_Failure_ActionCancelled None]
        /\ config st' = config st1)
       \/
       (new_events st st'
        = entry_events separated ++ pre ++ finish_events env separated m
        /\ exists sb,
             st' = backup_finish env separated m sb /\ config sb = config st1))).
  { cbn -[word_loop].
    destruct (word_loop env (List.length m) separated m 0 0 1 st1)
      as [[sa|sa]|] eqn:Ea; [| |discriminate];
      apply word_loop_calls in Ea; [|congruence| |congruence];
      destruct Ea as (pa & Hpa & Hta & Htra & Hla & Hca);
      cbn [flow_state loop_tail] in *.
    2:{ intros H; inversion H; subst st'. exists pa.
        split; [exact Hpa|]. split; [now rewrite <- Hcw1|]. left.
        split; [|exact Hca].
        apply new_events_app. rewrite Hta, Ht1. now rewrite <- !app_assoc. }
    rewrite app_nil_r in Hta.
    destruct (word_loop env (List.length m) separated m 1 0 1 sa)
      as [[sb|sb]|] eqn:Eb; [| |discriminate];
      apply word_loop_calls in Eb; auto;
      destruct Eb as (pb & Hpb & Htb & Htrb & Hlb & Hcb);
      cbn [flow_state loop_tail] in *.
    - rewrite app_nil_r in Htb. intros H; inversion H; subst st'.
      destruct (backup_finish_spec env separated m sb)
        as (Hf & _ & _ & _ & _ & _ & Hw & _).
      exists (pa ++ pb).
      split; [now apply Forall_app|]. split.
      + rewrite Hw, <- Hcw1. eapply tracks_app; eauto.
      + right. split.
        * apply new_events_app. rewrite Hf, Htb, Hta, Ht1.
          now rewrite <- !app_assoc.
        * exists sb. split; [reflexivity | congruence].
    - intros H; inversion H; subst st'. exists (pa ++ pb).
      split; [now apply Forall_app|]. split.
      + rewrite <- Hcw1. eapply tracks_app; eauto.
      + left. split; [|congruence].
        apply new_events_app. rewrite Htb, Hta, Ht1.
        now rewrite <- !app_assoc. }
  destruct separated.
  - destruct (cfg_needs_backup (config st)) eqn:Hn; simpl negb; cbv iota.
    + intros H. right. split; [auto|]. apply Hgo. exact H.
    + intros H. inversion H. left. auto.
  - intros H. right. split; [discriminate|]. apply Hgo. exact H.
Qed.


(** ** The paths of [reset_init] *)

(** Closes one of the facts of [reset_init_facts] on one path. *)
Ltac init_fact :=
  first [ reflexivity
        | solve [intros d Hin; simpl in Hin; intuition discriminate]
        | solve [intros; repeat split; reflexivity]
        | solve [intros; assumption]
        | solve [intros H; exfalso; tauto]
        | solve [intros (_ & H1 & H2); congruence]
        | solve [intros H; exfalso; apply H; repeat split; auto] ].

(** What every path of [reset_init] does to the session, the store and the
    generator. *)
Lemma reset_init_facts (display_random : bool) (_strength : Z)
  (passphrase_protection pin_protection : bool)
  (language label : option string) (u2f_counter : Z)
  (_skip_backup _no_backup : bool) (st : state) :
  let st' := reset_init env display_random _strength passphrase_protection
               pin_protection language label u2f_counter _skip_backup
               _no_backup st in
  (forall d, ~ In (MnemonicFromData d) (new_events st st')) /\
  trace st' = trace st ++ new_events st st' /\
  (cfg_mnemonic (config st') = cfg_mnemonic (config st) /\
   cfg_needs_backup (config st') = cfg_needs_backup (config st) /\
   cfg_unfinished_backup (config st') = cfg_unfinished_backup (config st) /\
   cfg_no_backup (config st') = cfg_no_backup (config st)) /\
  current_word st' = current_word st /\
  (awaiting_entropy st = true -> awaiting_entropy st' = true) /\
  (valid_strength _strength ->
   strength st' = _strength /\ skip_backup st' = _skip_backup /\
   no_backup st' = _no_backup) /\
  (~ valid_strength _strength -> st' = st) /\
  (creation_confirmed env display_random _strength _skip_backup _no_backup st ->
   random_drawn st' = (random_drawn st + 32)%nat /\
   int_entropy st'
   = drawn env (random_drawn st) 32 ++ skipn 32 (int_entropy st)) /\
  (~ creation_confirmed env display_random _strength _skip_backup _no_backup
       st ->
   random_drawn st' = random_drawn st /\ int_entropy st' = int_entropy st).
Proof.
  intros st'. subst st'. unfold reset_init, creation_confirmed, drawn.
  destruct (negb (_strength =? 128) && negb (_strength =? 192)
            && negb (_strength =? 256)) eqn:V.
  { assert (Hv : ~ valid_strength _strength).
    { intros [-> | [-> | ->]]; discriminate. }
    unfold new_events. rewrite skipn_all, app_nil_r.
    repeat match goal with |- _ /\ _ => split end; init_fact. }
  assert (Hv : valid_strength _strength).
  { unfold valid_strength.
    destruct (Z.eqb_spec _strength 128); [tauto|].
    destruct (Z.eqb_spec _strength 192); [tauto|].
    destruct (Z.eqb_spec _strength 256); [tauto|]. discriminate. }
  unfold protectButton, protectChangePin, random_buffer.
  cbn -[firstn skipn map seq data2hex new_events].
  destruct (display_random && (_skip_backup || _no_backup)) eqn:D.
  { new_events_norm. cbn -[firstn skipn map seq data2hex].
    repeat match goal with |- _ /\ _ => split end; init_fact. }
  destruct (button_answer env (buttons_asked st)) eqn:B1;
    cbn -[firstn skipn map seq data2hex new_events].
  2:{ new_events_norm. cbn -[firstn skipn map seq data2hex].
      repeat match goal with |- _ /\ _ => split end; init_fact. }
  destruct display_random; cbn -[firstn skipn map seq data2hex new_events];
    [destruct (button_answer env (S (buttons_asked st)));
     cbn -[firstn skipn map seq data2hex new_events]|];
    try (destruct pin_protection;
         cbn -[firstn skipn map seq data2hex new_events];
         [destruct (pin_change_ok env (pins_asked st));
          cbn -[firstn skipn map seq data2hex new_events]|]);
    new_events_norm; cbn -[firstn skipn map seq data2hex];
    repeat match goal with |- _ /\ _ => split end; init_fact.
Qed.


(** X1: a reset request with a valid strength records its strength and its
    two backup options in the session whether or not it is then stopped at a
    gate, and it never withdraws an entropy request that is pending: a
    request stopped at a gate changes the strength and the backup mode of the
    pending one. *)
Theorem reset_init_overwrites_session (display_random : bool) (_strength : Z)
  (passphrase_protection pin_protection : bool)
  (language label : option string) (u2f_counter : Z)
  (_skip_backup _no_backup : bool) (st : state) :
  valid_strength _strength ->
  let st' := reset_init env display_random _strength passphrase_protection
               pin_protection language label u2f_counter _skip_backup
               _no_backup st in
  strength st' = _strength /\
  skip_backup st' = _skip_backup /\
  no_backup st' = _no_backup /\
  (awaiting_entropy st = true -> awaiting_entropy st' = true).
Proof.
  intros Hv st'.
  destruct (reset_init_facts display_random _strength passphrase_protection
              pin_protection language label u2f_counter _skip_backup
              _no_backup st)
    as (_ & _ & _ & _ & Ha & Hs & _).
  destruct (Hs Hv) as (H1 & H2 & H3). auto.
Qed.

(** X2: [reset_init] calls the random number generator exactly when the
    request is well formed and the user confirms the creation of the wallet.
    It then draws 32 bytes, which are what the entropy buffer holds and the
    debug link reads on return, also when the request is stopped later at the
    entropy display or the PIN set-up. Otherwise nothing is drawn and the
    buffer is as it was. *)
Theorem reset_init_draws_after_confirmation (display_random : bool)
  (_strength : Z) (passphrase_protection pin_protection : bool)
  (language label : option string) (u2f_counter : Z)
  (_skip_backup _no_backup : bool) (st : state) :
  List.length (int_entropy st) = sizeof_int_entropy ->
  let st' := reset_init env display_random _strength passphrase_protection
               pin_protection language label u2f_counter _skip_backup
               _no_backup st in
  (creation_confirmed env display_random _strength _skip_backup _no_backup st ->
   random_drawn st' = (random_drawn st + 32)%nat /\
   int_entropy st' = drawn env (random_drawn st) 32 /\
   reset_get_int_entropy st' = (drawn env (random_drawn st) 32, 32))
  /\
  (~ creation_confirmed env display_random _strength _skip_backup _no_backup
       st ->
   random_drawn st' = random_drawn st /\
   int_entropy st' = int_entropy st).
Proof.
  intros Hl st'. subst st'.
  destruct (reset_init_facts display_random _strength passphrase_protection
              pin_protection language label u2f_counter _skip_backup
              _no_backup st)
    as (_ & _ & _ & _ & _ & _ & _ & Hyes & Hno).
  split; [|exact Hno].
  intros Hc. destruct (Hyes Hc) as (Hr & Hi).
  rewrite skipn_all2, app_nil_r in Hi
    by (rewrite Hl; unfold sizeof_int_entropy; lia).
  split; [exact Hr|]. split; [exact Hi|].
  unfold reset_get_int_entropy. rewrite Hi.
  rewrite firstn_all2; [reflexivity|].
  unfold drawn. rewrite length_map, length_seq. lia.
Qed.

(** X3: no path of [reset_init] touches the stored mnemonic, the flags
    needs_backup, unfinished_backup and no_backup, or the word buffer, and
    none calls the mnemonic derivation. *)
Theorem reset_init_keeps_stored_secret (display_random : bool) (_strength : Z)
  (passphrase_protection pin_protection : bool)
  (language label : option string) (u2f_counter : Z)
  (_skip_backup _no_backup : bool) (st : state) :
  let st' := reset_init env display_random _strength passphrase_protection
               pin_protection language label u2f_counter _skip_backup
               _no_backup st in
  cfg_mnemonic (config st') = cfg_mnemonic (config st) /\
  cfg_needs_backup (config st') = cfg_needs_backup (config st) /\
  cfg_unfinished_backup (config st') = cfg_unfinished_backup (config st) /\
  cfg_no_backup (config st') = cfg_no_backup (config st) /\
  current_word st' = current_word st /\
  (forall d, ~ In (MnemonicFromData d) (new_events st st')).
Proof.
  intros st'.
  destruct (reset_init_facts display_random _strength passphrase_protection
              pin_protection language label u2f_counter _skip_backup
              _no_backup st)
    as (Hd & _ & (H1 & H2 & H3 & H4) & Hw & _).
  auto 10.
Qed.

(** X4: the host's entropy is taken once per reset request. After
    [reset_entropy] has handled an entropy message while one was awaited,
    whatever the outcome, any further entropy message is refused with
    "Not in Reset mode" and changes neither the session nor the store. *)
Theorem reset_entropy_only_once (ext ext' : list byte) (len len' : nat)
  (st st' : state) :
  awaiting_entropy st = true ->
  reset_entropy env ext len st = Some st' ->
  exists st'',
    reset_entropy env ext' len' st' = Some st'' /\
    new_events st' st''
    = [SendFailure FailureType_Failure_UnexpectedMessage
         (Some "Not in Reset mode")] /\
    config st'' = config st' /\ keeps_session st' st''.
Proof.
  intros Ha E.
  destruct (reset_entropy_runs env ext len st Ha) as (s & E' & _ & Hw & _).
  assert (s = st') by congruence. subst s.
  unfold reset_entropy at 1. rewrite Hw. simpl negb. cbv iota.
  eexists. split; [reflexivity|]. split; [solve_new_events|].
  split; [reflexivity|]. unfold keeps_session. cbn. auto.
Qed.

(** X5: a separate backup can be started once. After a separate
    [reset_backup] has passed its entry check, whether the words were then
    all confirmed or one was declined, the flag needs_backup is false and
    every further separate [reset_backup] is refused with "Seed already
    backed up", leaving the store as it is. *)
Theorem reset_backup_separated_not_repeatable (m m' : list ascii)
  (st st' : state) :
  cfg_needs_backup (config st) = true ->
  reset_backup env true m st = Some st' ->
  exists st'',
    reset_backup env true m' st' = Some st'' /\
    new_events st' st''
    = [SendFailure FailureType_Failure_UnexpectedMessage
         (Some "Seed already backed up")] /\
    config st'' = config st'.
Proof.
  intros Hn E.
  assert (Hf : cfg_needs_backup (config st') = false).
  { destruct (reset_backup_cases env true m st)
      as [(_ & Hn' & _) | (_ & st2 & Hk & Hcase)]; [congruence|].
    destruct (backup_entry_spec st) as (_ & _ & Hb & _).
    destruct Hk as [_ _ _ _ _ Hc _].
    destruct Hcase as [(E2 & _) | E2].
    - assert (st2 = st') by congruence. subst st2. now rewrite Hc.
    - destruct (backup_finish_spec env true m st2)
        as (_ & _ & _ & _ & _ & _ & _ & _ & _ & Hnb & _).
      assert (backup_finish env true m st2 = st') by congruence. subst st'.
      rewrite Hnb, Hc. exact Hb. }
  unfold reset_backup at 1, config_getNeedsBackup. rewrite Hf. simpl negb.
  cbv iota. eexists. split; [reflexivity|]. split; [solve_new_events|].
  reflexivity.
Qed.


(** ** What follows from the calls of [reset_backup] *)

Lemma word_calls_no_reply (m : list ascii) (pre : list event) :
  Forall (word_call m) pre -> filter is_reply pre = [].
Proof.
  induction 1 as [|e pre He _ IH]; [reflexivity|]. simpl.
  destruct e; simpl in *; try contradiction; exact IH.
Qed.

Lemma last_shown_sides (separated : bool) (pre tail : list event) :
  last_shown tail = None ->
  last_shown (entry_events separated ++ pre ++ tail) = last_shown pre.
Proof.
  intros Ht. rewrite !last_shown_app, Ht.
  destruct (last_shown pre); [reflexivity|]. now destruct separated.
Qed.

Lemma last_shown_finish (separated : bool) (m : list ascii) :
  last_shown (finish_events env separated m) = None.
Proof.
  unfold finish_events.
  destruct separated; [|destruct (storage_accepts env m)]; reflexivity.
Qed.

(** X6: whatever the mnemonic and whatever the user answers, every word
    [reset_backup] lays out is at most 9 characters long, holds neither a
    space nor a NUL, and is a run of consecutive characters of the mnemonic:
    the screen never shows what a longer, earlier word left in the
    buffer. *)
Theorem reset_backup_shows_pieces (separated : bool) (m : list ascii)
  (st st' : state) (w : list ascii) (pass word_pos : nat) (last : bool) :
  List.length (current_word st) = sizeof_current_word ->
  reset_backup env separated m st = Some st' ->
  In (LayoutResetWord w pass word_pos last) (new_events st st') ->
  (List.length w <= 9)%nat /\ ~ In SPACE w /\ ~ In NUL w /\ piece_of m w.
Proof.
  intros Hcw E Hin.
  destruct (reset_backup_calls separated m st st' Hcw E)
    as [(_ & _ & ->) | (_ & pre & Hpre & _ & Hcase)].
  { rewrite (new_events_app st _ [SendFailure
               FailureType_Failure_UnexpectedMessage
               (Some "Seed already backed up")]) in Hin by reflexivity.
    destruct Hin as [H|[]]. discriminate. }
  assert (Hp : In (LayoutResetWord w pass word_pos last) pre).
  { destruct Hcase as [(Hev & _) | (Hev & _)]; rewrite Hev in Hin;
      apply in_app_or in Hin; destruct Hin as [Hin|Hin];
      try (unfold entry_events in Hin; destruct separated; simpl in Hin;
           intuition discriminate);
      apply in_app_or in Hin; destruct Hin as [Hin|Hin]; auto.
    - destruct separated; simpl in Hin; intuition discriminate.
    - unfold finish_events in Hin.
      destruct separated; [|destruct (storage_accepts env m)];
        simpl in Hin; intuition discriminate. }
  rewrite Forall_forall in Hpre. apply Hpre in Hp. simpl in Hp.
  unfold sizeof_current_word in Hp. intuition lia.
Qed.

(** X7: the debug link reads the word on the screen. When [reset_backup]
    returns, [reset_get_word] designates, as a C string, the last word that
    was laid out, if the backup was cancelled as well as if it was completed;
    when no word was laid out the buffer is as it was before. *)
Theorem reset_get_word_is_last_shown (separated : bool) (m : list ascii)
  (st st' : state) :
  List.length (current_word st) = sizeof_current_word ->
  reset_backup env separated m st = Some st' ->
  match last_shown (new_events st st') with
  | Some w => c_str (reset_get_word st') = w
  | None => reset_get_word st' = current_word st
  end.
Proof.
  intros Hcw E. unfold reset_get_word.
  destruct (reset_backup_calls separated m st st' Hcw E)
    as [(_ & _ & ->) | (_ & pre & _ & Htr & Hcase)].
  { rewrite (new_events_app st _ [SendFailure
               FailureType_Failure_UnexpectedMessage
               (Some "Seed already backed up")]) by reflexivity.
    reflexivity. }
  unfold tracks in Htr.
  destruct Hcase as [(Hev & _) | (Hev & _)]; rewrite Hev.
  - rewrite last_shown_sides; [exact Htr|]. now destruct separated.
  - rewrite last_shown_sides; [exact Htr|]. apply last_shown_finish.
Qed.

(** X8: [reset_backup] answers the host exactly once on every path: the
    rejection at the entry check, a declined word and the completed backup
    each send one success or failure message and no other. *)
Theorem reset_backup_replies_once (separated : bool) (m : list ascii)
  (st st' : state) :
  List.length (current_word st) = sizeof_current_word ->
  reset_backup env separated m st = Some st' ->
  List.length (filter is_reply (new_events st st')) = 1%nat.
Proof.
  intros Hcw E.
  destruct (reset_backup_calls separated m st st' Hcw E)
    as [(_ & _ & ->) | (_ & pre & Hpre & _ & Hcase)].
  { rewrite (new_events_app st _ [SendFailure
               FailureType_Failure_UnexpectedMessage
               (Some "Seed already backed up")]) by reflexivity.
    reflexivity. }
  apply word_calls_no_reply in Hpre.
  destruct Hcase as [(Hev & _) | (Hev & _)]; rewrite Hev;
    rewrite !filter_app, Hpre; unfold entry_events, finish_events;
    destruct separated; try destruct (storage_accepts env m); reflexivity.
Qed.

(** X9: the reply of an inline [reset_backup] tells what the store holds.
    When it reports success the mnemonic is stored and both needs_backup and
    unfinished_backup are false; when it reports a failure, be it a declined
    word or a refusal of the store, the stored mnemonic is the one from
    before the call. *)
Theorem reset_backup_inline_reply_tells_store (m : list ascii)
  (st st' : state) :
  List.length (current_word st) = sizeof_current_word ->
  reset_backup env false m st = Some st' ->
  (forall text,
     In (SendSuccess text) (new_events st st') ->
     text = "Device successfully initialized" /\
     cfg_mnemonic (config st') = Some m /\
     cfg_needs_backup (config st') = false /\
     cfg_unfinished_backup (config st') = false)
  /\
  (forall code text,
     In (SendFailure code text) (new_events st st') ->
     cfg_mnemonic (config st') = cfg_mnemonic (config st)).
Proof.
  intros Hcw E.
  destruct (reset_backup_calls false m st st' Hcw E)
    as [(H & _) | (_ & pre & Hpre & _ & Hcase)]; [discriminate|].
  assert (Hnot : forall e, is_reply e = true -> ~ In e pre).
  { intros e He Hin. apply word_calls_no_reply in Hpre.
    assert (Hf : In e (filter is_reply pre)) by (apply filter_In; auto).
    rewrite Hpre in Hf. destruct Hf. }
  destruct Hcase as [(Hev & Hc) | (Hev & sb & -> & Hc)]; rewrite Hev;
    cbn [entry_events app]; split.
  - intros text Hin. apply in_app_or in Hin. destruct Hin as [Hin|Hin].
    + apply Hnot in Hin; [destruct Hin | reflexivity].
    + simpl in Hin. intuition discriminate.
  - intros code text _. now rewrite Hc.
  - intros text Hin. apply in_app_or in Hin. destruct Hin as [Hin|Hin].
    { apply Hnot in Hin; [destruct Hin | reflexivity]. }
    destruct (backup_finish_spec env false m sb)
      as (_ & _ & _ & _ & _ & _ & _ & _ & Hu & Hn & Hm).
    unfold finish_events in Hin.
    destruct (storage_accepts env m); simpl in Hin.
    + destruct Hin as [H|[H|[H|[H|[H|[]]]]]]; try discriminate.
      inversion H. auto.
    + intuition discriminate.
  - intros code text Hin. apply in_app_or in Hin. destruct Hin as [Hin|Hin].
    { apply Hnot in Hin; [destruct Hin | reflexivity]. }
    destruct (backup_finish_spec env false m sb)
      as (_ & _ & _ & _ & _ & _ & _ & _ & _ & _ & Hm).
    unfold finish_events in Hin.
    destruct (storage_accepts env m); simpl in Hin.
    + intuition discriminate.
    + rewrite Hm, Hc. reflexivity.
Qed.

(** X10: a separate [reset_backup] only ever writes the two flags
    needs_backup and unfinished_backup: the stored mnemonic, the no_backup
    flag, the settings and the PIN state are as before on every path, the
    mnemonic is never written and the session never wiped. *)
Theorem reset_backup_separated_frame (m : list ascii) (st st' : state) :
  List.length (current_word st) = sizeof_current_word ->
  reset_backup env true m st = Some st' ->
  cfg_mnemonic (config st') = cfg_mnemonic (config st) /\
  cfg_no_backup (config st') = cfg_no_backup (config st) /\
  settings (config st') = settings (config st) /\
  cfg_has_pin (config st') = cfg_has_pin (config st) /\
  (forall m', ~ In (ConfigSetMnemonic m') (new_events st st')) /\
  (forall lock, ~ In (SessionClear lock) (new_events st st')).
Proof.
  intros Hcw E.
  destruct (reset_backup_calls true m st st' Hcw E)
    as [(_ & _ & ->) | (_ & pre & Hpre & _ & Hcase)].
  { rewrite (new_events_app st _ [SendFailure
               FailureType_Failure_UnexpectedMessage
               (Some "Seed already backed up")]) by reflexivity.
    cbn. repeat split; auto; intros ? [H|[]]; discriminate. }
  assert (Hnot : forall e, In e pre -> word_call m e).
  { now apply Forall_forall. }
  assert (Hevs : forall e,
             In e (new_events st st') ->
             (forall m', e <> ConfigSetMnemonic m') /\
             (forall lock, e <> SessionClear lock)).
  { intros e Hin.
    destruct Hcase as [(Hev & _) | (Hev & _)]; rewrite Hev in Hin;
      cbn [entry_events] in Hin;
      apply in_app_or in Hin; destruct Hin as [Hin|Hin];
      try (simpl in Hin; destruct Hin as [<-|[<-|[]]]; split; discriminate);
      apply in_app_or in Hin; destruct Hin as [Hin|Hin];
      try (apply Hnot in Hin; destruct e; simpl in Hin; try contradiction;
           split; discriminate);
      simpl in Hin; intuition (subst; discriminate). }
  assert (Hcfg : forall s, config s = config (backup_entry st) ->
             cfg_mnemonic (config s) = cfg_mnemonic (config st) /\
             cfg_no_backup (config s) = cfg_no_backup (config st) /\
             settings (config s) = settings (config st) /\
             cfg_has_pin (config s) = cfg_has_pin (config st)).
  { intros s ->. cbn. auto. }
  assert (Hc : cfg_mnemonic (config st') = cfg_mnemonic (config st) /\
               cfg_no_backup (config st') = cfg_no_backup (config st) /\
               settings (config st') = settings (config st) /\
               cfg_has_pin (config st') = cfg_has_pin (config st)).
  { destruct Hcase as [(_ & Hc) | (_ & sb & -> & Hc)].
    - now apply Hcfg.
    - destruct (Hcfg sb Hc) as (h1 & h2 & h3 & h4).
      unfold settings in *. cbn. auto. }
  destruct Hc as (h1 & h2 & h3 & h4).
  repeat split; auto; intros x Hin; apply Hevs in Hin; destruct Hin as (a & b);
    [now apply (a x) | now apply (b x)].
Qed.


(** ** The calls of [reset_entropy] *)

(** Everything [reset_entropy] calls while entropy is awaited: the
    derivation, then either the direct storage or the inline backup, then
    [mnemonic_clear]. *)
Lemma reset_entropy_calls (ext : list byte) (len : nat) (st st' : state) :
  awaiting_entropy st = true ->
  reset_entropy env ext len st = Some st' ->
  let mn := fst (entropy_mixed ext len st) in
  let s1 := snd (entropy_mixed ext len st) in
  let d := firstn (Z.to_nat (strength st / 8))
             (sha256_Raw (firstn 32 (int_entropy st) ++ firstn len ext)) in
  mn = bip39_mnemonic d /\
  trace st' = trace st ++ new_events st st' /\
  ((skip_backup st || no_backup st = true /\
    st' = mnemonic_clear (store_directly env mn (mark_backup s1)) /\
    new_events st st'
    = [MnemonicFromData d;
       if no_backup st then ConfigSetNoBackup else ConfigSetNeedsBackup true;
       ConfigSetMnemonic mn;
       if storage_accepts env mn
       then SendSuccess "Device successfully initialized"
       else SendFailure FailureType_Failure_ProcessError
              (Some "Failed to store mnemonic");
       LayoutHome; MnemonicClear])
   \/
   (skip_backup st || no_backup st = false /\
    exists s2,
      reset_backup env false mn s1 = Some s2 /\
      st' = mnemonic_clear s2 /\
      new_events st st'
      = MnemonicFromData d :: new_events s1 s2 ++ [MnemonicClear])).
Proof.
  intros Ha E mn s1 d.
  rewrite (reset_entropy_awaiting env ext len st Ha) in E.
  destruct (entropy_mixed_state ext len st)
    as (Hm & Ht & _ & _ & _ & Hsk & Hno & _).
  fold d in Hm, Ht. fold mn in Hm. fold s1 in Ht, Hsk, Hno.
  destruct (entropy_mixed ext len st) as [mn0 s0] eqn:Em.
  cbn [fst snd] in mn, s1. subst mn s1.
  split; [exact Hm|].
  destruct (skip_backup st || no_backup st) eqn:B.
  - assert (Hmark : (if no_backup st then config_setNoBackup s0
                     else config_setNeedsBackup true s0) = mark_backup s0).
    { unfold mark_backup. now rewrite Hno. }
    rewrite Hmark in E. inversion E.
    destruct (store_directly_spec env mn0 (mark_backup s0)) as (Hs & _).
    match goal with
    | |- _ /\ (_ /\ _ /\ new_events _ _ = ?l \/ _) =>
        assert (Htr : trace (mnemonic_clear
                               (store_directly env mn0 (mark_backup s0)))
                      = trace st ++ l)
    end.
    { cbn [mnemonic_clear emit trace]. rewrite Hs.
      unfold mark_backup. rewrite Hno.
      destruct (no_backup st); cbn; rewrite Ht, <- ?app_assoc; reflexivity. }
    rewrite (new_events_app _ _ _ Htr). split; [exact Htr|].
    left. auto.
  - destruct (reset_backup env false mn0 s0) as [s2|] eqn:Eb; [|discriminate].
    inversion E.
    destruct (reset_backup_runs env false mn0 s0) as (s & evs & Eb' & Htr & _);
      [discriminate|].
    assert (s = s2) by congruence. subst s.
    assert (Htr' : trace (mnemonic_clear s2)
                   = trace st ++ MnemonicFromData d :: evs ++ [MnemonicClear]).
    { cbn. rewrite Htr, Ht, <- !app_assoc. reflexivity. }
    rewrite (new_events_app _ _ _ Htr'). split; [exact Htr'|].
    right. split; [reflexivity|]. exists s2.
    rewrite (new_events_app _ _ _ Htr). auto.
Qed.

(** X11: [reset_entropy] answers the host exactly once on every path: the
    refusal outside reset mode, the direct storage, and the inline backup
    whether completed or cancelled. *)
Theorem reset_entropy_replies_once (ext : list byte) (len : nat)
  (st st' : state) :
  List.length (current_word st) = sizeof_current_word ->
  reset_entropy env ext len st = Some st' ->
  List.length (filter is_reply (new_events st st')) = 1%nat.
Proof.
  intros Hcw E. destruct (awaiting_entropy st) eqn:Ha.
  2:{ unfold reset_entropy in E. rewrite Ha in E. simpl negb in E.
      cbv iota in E. inversion E.
      rewrite (new_events_app st _ [SendFailure
                 FailureType_Failure_UnexpectedMessage
                 (Some "Not in Reset mode")]) by reflexivity.
      reflexivity. }
  destruct (reset_entropy_calls ext len st st' Ha E)
    as (_ & _ & [(_ & _ & Hev) | (_ & s2 & Eb & _ & Hev)]); rewrite Hev.
  - destruct (no_backup st), (storage_accepts env _); reflexivity.
  - destruct (entropy_mixed_state ext len st)
      as (_ & _ & _ & _ & _ & _ & _ & _ & Hw).
    destruct (reset_backup_calls false _ _ s2 (eq_trans (f_equal _ Hw) Hcw) Eb)
      as [(H & _) | (_ & pre & Hpre & _ & Hcase)]; [discriminate|].
    apply word_calls_no_reply in Hpre.
    cbn [filter is_reply]. rewrite filter_app.
    destruct Hcase as [(Hb & _) | (Hb & _)]; rewrite Hb;
      rewrite !filter_app, Hpre; unfold entry_events, finish_events;
      try destruct (storage_accepts env _); reflexivity.
Qed.


(** ** From the request to the stored mnemonic *)

(** A reset request that passes every gate: the entropy request is pending,
    the settings are those of the request, and the entropy dialog, when
    asked for, showed the buffer in four groups of eight bytes. *)
Lemma reset_init_passed (display_random : bool) (_strength : Z)
  (passphrase_protection pin_protection : bool)
  (language label : option string) (u2f_counter : Z)
  (_skip_backup _no_backup : bool) (st : state) :
  gates_passed env display_random _strength pin_protection _skip_backup
    _no_backup st ->
  let st' := reset_init env display_random _strength passphrase_protection
               pin_protection language label u2f_counter _skip_backup
               _no_backup st in
  awaiting_entropy st' = true /\
  settings (config st')
  = (passphrase_protection, language, label, u2f_counter) /\
  buttons_asked st'
  = (buttons_asked st + if display_random then 2 else 1)%nat /\
  (display_random = true ->
   In (LayoutDialogSwipe bmp_icon_info "Cancel" "Continue" None
         [Some "Internal entropy:";
          Some (data2hex (firstn 8 (int_entropy st')));
          Some (data2hex (firstn 8 (skipn 8 (int_entropy st'))));
          Some (data2hex (firstn 8 (skipn 16 (int_entropy st'))));
          Some (data2hex (firstn 8 (skipn 24 (int_entropy st'))));
          None])
      (new_events st st')).
Proof.
  intros (Hv & D & B1 & B2 & P) st'. subst st'. unfold reset_init.
  assert (Hval : negb (_strength =? 128) && negb (_strength =? 192)
                 && negb (_strength =? 256) = false).
  { destruct Hv as [-> | [-> | ->]]; reflexivity. }
  rewrite Hval.
  unfold protectButton, protectChangePin, random_buffer.
  cbn -[firstn skipn map seq data2hex new_events].
  rewrite D, B1. cbn -[firstn skipn map seq data2hex new_events].
  destruct display_random;
    [rewrite (B2 eq_refl)|];
    cbn -[firstn skipn map seq data2hex new_events];
    (destruct pin_protection;
     [rewrite (P eq_refl)|];
     cbn -[firstn skipn map seq data2hex new_events]);
    new_events_norm; cbn -[firstn skipn map seq data2hex];
    (split; [reflexivity|]); (split; [reflexivity|]);
    (split; [lia|]); intros H; try discriminate;
    right; right; right; left; reflexivity.
Qed.

(** A backup whose words fit and are all confirmed (the steps of the word
    loop put together). *)
Lemma reset_backup_confirmed (separated : bool) (m : list ascii)
  (st : state) :
  is_c_string m ->
  words_fit m ->
  List.length (current_word st) = sizeof_current_word ->
  (separated = true -> cfg_needs_backup (config st) = true) ->
  (forall k, (k < 2 * List.length (tokens m))%nat ->
             button_answer env (buttons_asked st + k) = true) ->
  exists sb,
    reset_backup env separated m st
    = Some (backup_finish env separated m sb) /\
    config sb = config (if separated then backup_entry st else st) /\
    new_events st (backup_finish env separated m sb)
    = entry_events separated
      ++ word_events 0 1 (tokens m)
      ++ word_events 1 1 (tokens m)
      ++ finish_events env separated m.
Proof.
  intros Hc Hfit Hcw Hn Hb.
  set (st1 := if separated then backup_entry st else st).
  assert (H1 : trace st1 = trace st ++ entry_events separated
               /\ current_word st1 = current_word st
               /\ buttons_asked st1 = buttons_asked st).
  { subst st1. unfold entry_events. destruct separated.
    - destruct (backup_entry_spec st) as (Ht & _). rewrite Ht. auto.
    - rewrite app_nil_r. auto. }
  destruct H1 as (Ht1 & Hcw1 & Hb1).
  destruct (word_loop_confirmed env separated m 0 (List.length m) 0 1 st1)
    as (sa & Ea & Hka & Hta & Hba & Hcwa); auto.
  { rewrite Hcw1. exact Hcw. }
  { intros k Hk. rewrite Hb1. apply Hb. simpl skipn in Hk. lia. }
  destruct (word_loop_confirmed env separated m 1 (List.length m) 0 1 sa)
    as (sb & Eb & Hkb & Htb & Hbb & Hcwb); auto.
  { intros k Hk. rewrite Hba, Hb1, <- Nat.add_assoc. apply Hb.
    simpl skipn in *. lia. }
  simpl skipn in *.
  destruct (backup_finish_spec env separated m sb) as (Hf & _).
  exists sb. split; [|split].
  - unfold reset_backup, config_getNeedsBackup.
    destruct separated.
    + rewrite (Hn eq_refl). simpl negb. cbv iota.
      fold (backup_entry st). change (backup_entry st) with st1.
      cbn -[word_loop]. rewrite Ea. cbn -[word_loop]. rewrite Eb. reflexivity.
    + change st with st1 at 1.
      cbn -[word_loop]. rewrite Ea. cbn -[word_loop]. rewrite Eb. reflexivity.
  - destruct Hka as [_ _ _ _ _ Hca _]. destruct Hkb as [_ _ _ _ _ Hcb _].
    congruence.
  - apply new_events_app. rewrite Hf, Htb, Hta, Ht1.
    now rewrite <- !app_assoc.
Qed.


(** What [reset_entropy] finds after a reset request that passed every
    gate. *)
Lemma reset_init_then (display_random : bool) (_strength : Z)
  (passphrase_protection pin_protection : bool)
  (language label : option string) (u2f_counter : Z)
  (_skip_backup _no_backup : bool) (st : state) (ext : list byte) :
  List.length (int_entropy st) = sizeof_int_entropy ->
  gates_passed env display_random _strength pin_protection _skip_backup
    _no_backup st ->
  let st1 := reset_init env display_random _strength passphrase_protection
               pin_protection language label u2f_counter _skip_backup
               _no_backup st in
  awaiting_entropy st1 = true /\
  int_entropy st1 = drawn env (random_drawn st) 32 /\
  firstn (Z.to_nat (strength st1 / 8))
    (sha256_Raw (firstn 32 (int_entropy st1)
                 ++ firstn (List.length ext) ext))
  = firstn (Z.to_nat (_strength / 8))
      (sha256_Raw (drawn env (random_drawn st) 32 ++ ext)) /\
  skip_backup st1 = _skip_backup /\ no_backup st1 = _no_backup.
Proof.
  intros Hl Hg st1. subst st1.
  destruct (reset_init_passed display_random _strength passphrase_protection
              pin_protection language label u2f_counter _skip_backup
              _no_backup st Hg) as (Ha & _).
  destruct (reset_init_facts display_random _strength passphrase_protection
              pin_protection language label u2f_counter _skip_backup
              _no_backup st)
    as (_ & _ & _ & _ & _ & Hs & _ & Hyes & _).
  destruct Hg as (Hv & D & B1 & _).
  destruct (Hs Hv) as (H1 & H2 & H3).
  destruct (Hyes (conj Hv (conj D B1))) as (_ & Hi).
  rewrite skipn_all2, app_nil_r in Hi
    by (rewrite Hl; unfold sizeof_int_entropy; lia).
  split; [exact Ha|]. split; [exact Hi|]. split; [|auto].
  assert (Hf : firstn 32 (drawn env (random_drawn st) 32)
               = drawn env (random_drawn st) 32).
  { apply firstn_all2. unfold drawn. rewrite length_map, length_seq. lia. }
  rewrite H1, Hi, firstn_all, Hf. reflexivity.
Qed.

(** X12: the entropy the user is shown is the entropy that is used. When a
    reset request with display of the entropy passes every gate, the dialog
    showed, in four groups of eight bytes, the 32 bytes just drawn from the
    generator, and the entropy message that follows is hashed behind exactly
    these bytes: the mnemonic is derived from the first strength/8 bytes of
    the digest of the shown bytes followed by the host's. *)
Theorem shown_entropy_is_mixed (_strength : Z)
  (passphrase_protection pin_protection : bool)
  (language label : option string) (u2f_counter : Z)
  (_skip_backup _no_backup : bool) (st : state) (ext : list byte) :
  List.length (int_entropy st) = sizeof_int_entropy ->
  gates_passed env true _strength pin_protection _skip_backup _no_backup st ->
  let st1 := reset_init env true _strength passphrase_protection
               pin_protection language label u2f_counter _skip_backup
               _no_backup st in
  let e := drawn env (random_drawn st) 32 in
  In (LayoutDialogSwipe bmp_icon_info "Cancel" "Continue" None
        [Some "Internal entropy:";
         Some (data2hex (firstn 8 e));
         Some (data2hex (firstn 8 (skipn 8 e)));
         Some (data2hex (firstn 8 (skipn 16 e)));
         Some (data2hex (firstn 8 (skipn 24 e)));
         None])
     (new_events st st1) /\
  exists st2 evs,
    reset_entropy env ext (List.length ext) st1 = Some st2 /\
    new_events st1 st2
    = MnemonicFromData
        (firstn (Z.to_nat (_strength / 8)) (sha256_Raw (e ++ ext)))
      :: evs.
Proof.
  intros Hl Hg st1 e.
  destruct (reset_init_then true _strength passphrase_protection
              pin_protection language label u2f_counter _skip_backup
              _no_backup st ext Hl Hg) as (Ha & Hi & Hd & _).
  destruct (reset_init_passed true _strength passphrase_protection
              pin_protection language label u2f_counter _skip_backup
              _no_backup st Hg) as (_ & _ & _ & Hshow).
  fold st1 in Ha, Hi, Hd, Hshow. fold e in Hi.
  split; [rewrite <- Hi; now apply Hshow|].
  destruct (reset_entropy_total env ext (List.length ext) st1) as (st2 & E).
  destruct (reset_entropy_calls ext (List.length ext) st1 st2 Ha E)
    as (_ & _ & [(_ & _ & Hev) | (_ & s2 & _ & _ & Hev)]);
    rewrite Hd in Hev; fold e in Hev; eauto.
Qed.

(** X13: a reset request with skip_backup or no_backup that passes every
    gate, followed by the host's entropy: the mnemonic derived from the first
    strength/8 bytes of the digest of the 32 bytes drawn and the host's bytes
    is handed to the store, without any word being shown; no_backup sets the
    opt-out flag and leaves needs_backup alone, skip_backup alone sets
    needs_backup; the settings are those of the request, the entropy buffer
    is zero and no entropy is awaited any more. *)
Theorem reset_without_backup_end_to_end (display_random : bool)
  (_strength : Z) (passphrase_protection pin_protection : bool)
  (language label : option string) (u2f_counter : Z)
  (_skip_backup _no_backup : bool) (st : state) (ext : list byte) :
  List.length (int_entropy st) = sizeof_int_entropy ->
  gates_passed env display_random _strength pin_protection _skip_backup
    _no_backup st ->
  _skip_backup || _no_backup = true ->
  let st1 := reset_init env display_random _strength passphrase_protection
               pin_protection language label u2f_counter _skip_backup
               _no_backup st in
  let d := firstn (Z.to_nat (_strength / 8))
             (sha256_Raw (drawn env (random_drawn st) 32 ++ ext)) in
  let mn := bip39_mnemonic d in
  exists st2,
    reset_entropy env ext (List.length ext) st1 = Some st2 /\
    new_events st1 st2
    = [MnemonicFromData d;
       if _no_backup then ConfigSetNoBackup else ConfigSetNeedsBackup true;
       ConfigSetMnemonic mn;
       if storage_accepts env mn
       then SendSuccess "Device successfully initialized"
       else SendFailure FailureType_Failure_ProcessError
              (Some "Failed to store mnemonic");
       LayoutHome; MnemonicClear] /\
    cfg_mnemonic (config st2)
    = (if storage_accepts env mn then Some mn else cfg_mnemonic (config st)) /\
    cfg_no_backup (config st2)
    = (if _no_backup then true else cfg_no_backup (config st)) /\
    cfg_needs_backup (config st2)
    = (if _no_backup then cfg_needs_backup (config st) else true) /\
    cfg_unfinished_backup (config st2) = cfg_unfinished_backup (config st) /\
    settings (config st2)
    = (passphrase_protection, language, label, u2f_counter) /\
    awaiting_entropy st2 = false /\
    int_entropy st2 = repeat x00 32.
Proof.
  intros Hl Hg Hsk st1 d mn.
  destruct (reset_init_then display_random _strength passphrase_protection
              pin_protection language label u2f_counter _skip_backup
              _no_backup st ext Hl Hg) as (Ha & _ & Hd & Hs1 & Hn1).
  destruct (reset_init_passed display_random _strength passphrase_protection
              pin_protection language label u2f_counter _skip_backup
              _no_backup st Hg) as (_ & Hset & _).
  destruct (reset_init_facts display_random _strength passphrase_protection
              pin_protection language label u2f_counter _skip_backup
              _no_backup st)
    as (_ & _ & (Hc1 & Hc2 & Hc3 & Hc4) & _).
  fold st1 in Ha, Hd, Hs1, Hn1, Hset, Hc1, Hc2, Hc3, Hc4.
  destruct (reset_entropy_runs env ext (List.length ext) st1 Ha)
    as (st2 & E & _ & Hw & Hz).
  exists st2. split; [exact E|].
  destruct (reset_entropy_calls ext (List.length ext) st1 st2 Ha E)
    as (Hmn & _ & [(_ & Hst & Hev) | (B & _)]).
  2:{ rewrite Hs1, Hn1, Hsk in B. discriminate. }
  rewrite Hd in Hmn, Hev. fold d in Hmn, Hev. fold mn in Hmn.
  rewrite Hmn, Hn1 in Hev. split; [exact Hev|].
  destruct (entropy_mixed_state ext (List.length ext) st1)
    as (_ & _ & _ & _ & Hcfg & _ & Hno & _).
  rewrite Hmn in Hst.
  destruct (entropy_mixed ext (List.length ext) st1) as [mn0 s1].
  cbn [fst snd] in *.
  assert (Hfin :
    cfg_mnemonic (config st2)
    = (if storage_accepts env mn then Some mn else cfg_mnemonic (config s1)) /\
    cfg_no_backup (config st2)
    = (if no_backup s1 then true else cfg_no_backup (config s1)) /\
    cfg_needs_backup (config st2)
    = (if no_backup s1 then cfg_needs_backup (config s1) else true) /\
    cfg_unfinished_backup (config st2) = cfg_unfinished_backup (config s1) /\
    settings (config st2) = settings (config s1)).
  { rewrite Hst. unfold store_directly, mark_backup, config_setMnemonic.
    destruct (no_backup s1); cbn;
      destruct (storage_accepts env mn); cbn; auto. }
  destruct Hfin as (f1 & f2 & f3 & f4 & f5).
  rewrite Hno, Hn1 in f2, f3. rewrite Hcfg in f1, f2, f3, f4, f5.
  rewrite f1, f2, f3, f4, f5, Hc1, Hc2, Hc3, Hc4, Hset. auto 10.
Qed.

(** X14: a reset request with neither skip_backup nor no_backup that passes
    every gate, followed by the host's entropy and by the confirmation of
    every word in both passes (the words of the derived mnemonic fitting the
    buffer): the words are shown twice in order, then the derived mnemonic is
    handed to the store, needs_backup and unfinished_backup are false, the
    entropy buffer is zero and no entropy is awaited any more. *)
Theorem reset_with_backup_end_to_end (display_random : bool)
  (_strength : Z) (passphrase_protection pin_protection : bool)
  (language label : option string) (u2f_counter : Z)
  (st : state) (ext : list byte) :
  well_formed st ->
  gates_passed env display_random _strength pin_protection false false st ->
  let st1 := reset_init env display_random _strength passphrase_protection
               pin_protection language label u2f_counter false false st in
  let d := firstn (Z.to_nat (_strength / 8))
             (sha256_Raw (drawn env (random_drawn st) 32 ++ ext)) in
  let mn := bip39_mnemonic d in
  is_c_string mn ->
  words_fit mn ->
  (forall k, (k < 2 * List.length (tokens mn))%nat ->
             button_answer env (buttons_asked st1 + k) = true) ->
  exists st2,
    reset_entropy env ext (List.length ext) st1 = Some st2 /\
    new_events st1 st2
    = MnemonicFromData d
      :: word_events 0 1 (tokens mn) ++ word_events 1 1 (tokens mn)
         ++ finish_events env false mn ++ [MnemonicClear] /\
    cfg_mnemonic (config st2)
    = (if storage_accepts env mn then Some mn else cfg_mnemonic (config st)) /\
    cfg_needs_backup (config st2) = false /\
    cfg_unfinished_backup (config st2) = false /\
    awaiting_entropy st2 = false /\
    int_entropy st2 = repeat x00 32.
Proof.
  intros (Hl & Hcw & _) Hg st1 d mn Hc Hfit Hb.
  destruct (reset_init_then display_random _strength passphrase_protection
              pin_protection language label u2f_counter false false
              st ext Hl Hg) as (Ha & _ & Hd & Hs1 & Hn1).
  destruct (reset_init_facts display_random _strength passphrase_protection
              pin_protection language label u2f_counter false false st)
    as (_ & _ & (Hc1 & _) & Hw1 & _).
  fold st1 in Ha, Hd, Hs1, Hn1, Hc1, Hw1.
  destruct (reset_entropy_runs env ext (List.length ext) st1 Ha)
    as (st2 & E & _ & Hw & Hz).
  exists st2. split; [exact E|].
  destruct (reset_entropy_calls ext (List.length ext) st1 st2 Ha E)
    as (Hmn & _ & [(B & _) | (_ & s2 & Eb & Hst & Hev)]).
  { rewrite Hs1, Hn1 in B. discriminate. }
  rewrite Hd in Hmn, Hev. fold d in Hmn, Hev. fold mn in Hmn.
  destruct (entropy_mixed_state ext (List.length ext) st1)
    as (_ & _ & _ & _ & Hcfg & _ & _ & _ & Hcw1).
  assert (Hbs : buttons_asked (snd (entropy_mixed ext (List.length ext) st1))
                = buttons_asked st1) by reflexivity.
  destruct (entropy_mixed ext (List.length ext) st1) as [mn0 s1].
  cbn [fst snd] in *. subst mn0.
  destruct (reset_backup_confirmed false mn s1 Hc Hfit) as (sb & Eb' & Hcb & Hevb).
  { congruence. }
  { discriminate. }
  { intros k Hk. fold mn in Hbs. rewrite Hbs. now apply Hb. }
  assert (s2 = backup_finish env false mn sb) by congruence. subst s2.
  rewrite Hevb in Hev. cbn [entry_events app] in Hev.
  rewrite <- !app_assoc in Hev. split; [exact Hev|].
  destruct (backup_finish_spec env false mn sb)
    as (_ & _ & _ & _ & _ & _ & _ & _ & Hu & Hn & Hm).
  rewrite Hst. cbn [mnemonic_clear emit config].
  rewrite Hm, Hn, Hu, Hcb, Hcfg, Hc1.
  repeat split; auto; rewrite <- Hst; assumption.
Qed.


(** ** Every state the device reaches *)

Lemma word_calls_lengths_ok (m : list ascii) (pre : list event) :
  Forall (word_call m) pre -> Forall entropy_length_ok pre.
Proof.
  intros H. eapply Forall_impl; [|exact H].
  intros e He. destruct e; simpl in *; auto; contradiction.
Qed.

Lemma reset_backup_lengths_ok (separated : bool) (m : list ascii)
  (st st' : state) :
  List.length (current_word st) = sizeof_current_word ->
  reset_backup env separated m st = Some st' ->
  trace st' = trace st ++ new_events st st' /\
  Forall entropy_length_ok (new_events st st').
Proof.
  intros Hcw E.
  destruct (reset_backup_calls separated m st st' Hcw E)
    as [(_ & _ & ->) | (Hn & pre & Hpre & _ & Hcase)].
  { rewrite (new_events_app st _ [SendFailure
               FailureType_Failure_UnexpectedMessage
               (Some "Seed already backed up")]) by reflexivity.
    split; [reflexivity|]. repeat constructor. }
  split.
  - destruct (reset_backup_runs env separated m st Hn)
      as (s & evs & E' & Ht & _).
    assert (s = st') by congruence. subst s.
    now rewrite (new_events_app _ _ _ Ht).
  - apply word_calls_lengths_ok in Hpre.
    assert (Hentry : Forall entropy_length_ok (entry_events separated)).
    { unfold entry_events. destruct separated; repeat constructor. }
    assert (Hfin : Forall entropy_length_ok (finish_events env separated m)).
    { unfold finish_events.
      destruct separated; [|destruct (storage_accepts env m)];
        repeat constructor. }
    destruct Hcase as [(Hev & _) | (Hev & _)]; rewrite Hev.
    + apply Forall_app. split; [exact Hentry|].
      apply Forall_app. split; [exact Hpre|].
      destruct separated; repeat constructor.
    + apply Forall_app. split; [exact Hentry|].
      apply Forall_app. split; [exact Hpre | exact Hfin].
Qed.

(** X15: in every state the device reaches from power-up through any
    sequence of calls of the three handlers, the entropy buffer is 32 bytes
    and the word buffer 10 bytes long, an entropy request is pending only
    with a strength of 128, 192 or 256, and the mnemonic derivation has only
    ever been called with 16, 24 or 32 bytes. *)
Theorem reachable_states (st : state) :
  reachable env st ->
  well_formed st /\ Forall entropy_length_ok (trace st).
Proof.
  induction 1 as [| dr s pp pin lang lab u2f sk nb st _ (Hwf & Htr)
                  | ext st st' _ (Hwf & Htr) E
                  | separated m st st' _ (Hwf & Htr) E].
  - split; [apply well_formed_initial | constructor].
  - split; [now apply reset_init_well_formed|].
    destruct (reset_init_facts dr s pp pin lang lab u2f sk nb st)
      as (Hd & Ht & _).
    rewrite Ht. apply Forall_app. split; [exact Htr|].
    apply Forall_forall. intros e Hin.
    destruct e; simpl; auto. exfalso. eapply Hd. exact Hin.
  - split; [eapply reset_entropy_well_formed; eauto|].
    destruct Hwf as (Hl & Hcw & Hs).
    destruct (awaiting_entropy st) eqn:Ha.
    2:{ unfold reset_entropy in E. rewrite Ha in E. simpl negb in E.
        cbv iota in E. inversion E. cbn. apply Forall_app. split; [exact Htr|].
        repeat constructor. }
    destruct (reset_entropy_calls ext (List.length ext) st st' Ha E)
      as (_ & Ht & Hcase).
    rewrite Ht. apply Forall_app. split; [exact Htr|].
    assert (Hd : entropy_length_ok
                   (MnemonicFromData
                      (firstn (Z.to_nat (strength st / 8))
                         (sha256_Raw (firstn 32 (int_entropy st)
                                      ++ firstn (List.length ext) ext))))).
    { simpl. rewrite length_firstn, sha256_Raw_length.
      destruct (Hs eq_refl) as [-> | [-> | ->]]; cbn; auto. }
    destruct Hcase as [(_ & _ & Hev) | (_ & s2 & Eb & _ & Hev)]; rewrite Hev.
    + constructor; [exact Hd|].
      destruct (no_backup st), (storage_accepts env _); repeat constructor.
    + constructor; [exact Hd|]. apply Forall_app. split.
      * destruct (entropy_mixed_state ext (List.length ext) st)
          as (_ & _ & _ & _ & _ & _ & _ & _ & Hw).
        eapply reset_backup_lengths_ok; [|exact Eb]. congruence.
      * repeat constructor.
  - split; [eapply reset_backup_well_formed; eauto|].
    destruct Hwf as (_ & Hcw & _).
    destruct (reset_backup_lengths_ok separated m st st' Hcw E) as (Ht & Hok).
    rewrite Ht. apply Forall_app. auto.
Qed.


(** ** A backup declined at a given word *)

Lemma word_events_length (pass : nat) (ws : list (list ascii)) :
  forall word_pos,
    List.length (word_events pass word_pos ws) = (2 * List.length ws)%nat.
Proof.
  induction ws as [|w ws IH]; intros wp; simpl; [reflexivity|].
  rewrite IH. lia.
Qed.

Lemma word_loop_extends (env0 : environment) (separated : bool)
  (m : list ascii) (pass : nat) :
  forall fuel i word_pos st r,
    word_loop env0 fuel separated m pass i word_pos st = Some r ->
    exists evs, trace (flow_state r) = trace st ++ evs.
Proof.
  induction fuel as [|fuel IH]; intros i wp st r.
  - simpl. destruct (Ascii.eqb (char_at m i) NUL); [|discriminate].
    intros H; inversion H. exists []. cbn. now rewrite app_nil_r.
  - rewrite word_loop_S. destruct (Ascii.eqb (char_at m i) NUL).
    { intros H; inversion H. exists []. cbn. now rewrite app_nil_r. }
    destruct (copy_current_word sizeof_current_word m i 0 (current_word st))
      as [[[i' j'] cw']|]; [|discriminate].
    unfold protectButton, layoutResetWord. cbn -[word_loop].
    destruct (button_answer env0 (buttons_asked st)); cbn -[word_loop].
    + intros H. apply IH in H. destruct H as (evs & H). rewrite H. cbn.
      rewrite <- !app_assoc. eauto.
    + intros H; inversion H. destruct separated; cbn;
        rewrite <- !app_assoc; eauto.
Qed.

(** The word loop with the [d]-th answer from here the first that declines,
    against the same loop with every answer a confirmation: it does what
    that one does up to the [d]-th request, and returns. *)
Lemma word_loop_cut (separated : bool) (m : list ascii) (pass : nat) :
  forall fuel i word_pos st st' d,
    word_loop (always_yes env) fuel separated m pass i word_pos st
    = Some (Next st') ->
    (forall k, (k < d)%nat -> button_answer env (buttons_asked st + k) = true) ->
    button_answer env (buttons_asked st + d) = false ->
    (d < buttons_asked st' - buttons_asked st)%nat ->
    exists s,
      word_loop env fuel separated m pass i word_pos st = Some (Return s) /\
      trace s = trace st ++ firstn (2 * (d + 1)) (new_events st st')
                ++ loop_tail separated (Return s) /\
      config s = config st.
Proof.
  induction fuel as [|fuel IH]; intros i wp st st' d.
  - simpl. destruct (Ascii.eqb (char_at m i) NUL); [|discriminate].
    intros H; inversion H; subst. intros _ _ Hd. lia.
  - rewrite !word_loop_S. destruct (Ascii.eqb (char_at m i) NUL).
    { intros H; inversion H; subst. intros _ _ Hd. lia. }
    destruct (copy_current_word sizeof_current_word m i 0 (current_word st))
      as [[[i' j'] cw']|]; [|discriminate].
    unfold protectButton, layoutResetWord.
    cbn -[word_loop Nat.mul firstn new_events].
    set (i2 := if negb (Ascii.eqb (char_at m i') NUL) then (i' + 1)%nat else i').
    set (shown := LayoutResetWord (c_str (store cw' j' NUL)) pass wp
                    (Ascii.eqb (char_at m i2) NUL)).
    set (asked := ProtectButton ButtonRequestType_ButtonRequest_ConfirmWord
                    true).
    match goal with
    | |- word_loop _ fuel separated m pass i2 _ ?s2 = _ -> _ =>
        set (st2 := s2)
    end.
    intros Hyes Hb Hno Hd.
    assert (Ht2 : trace st2 = trace st ++ [shown; asked]).
    { subst st2. cbn. now rewrite <- app_assoc. }
    destruct (word_loop_extends (always_yes env) separated m pass fuel i2
                (wp + 1)%nat st2 (Next st') Hyes) as (e2 & He2).
    cbn [flow_state] in He2.
    assert (Hnew : new_events st st' = shown :: asked :: e2).
    { apply new_events_app. rewrite He2, Ht2. now rewrite <- app_assoc. }
    assert (Hnew2 : new_events st2 st' = e2) by now apply new_events_app.
    destruct d as [|d].
    + rewrite Nat.add_0_r in Hno. rewrite Hno. cbn -[Nat.mul firstn new_events].
      eexists. split; [reflexivity|].
      rewrite Hnew. cbn -[new_events].
      destruct separated; cbn; rewrite <- ?app_assoc; split; reflexivity.
    + assert (Hb0 : button_answer env (buttons_asked st) = true).
      { specialize (Hb 0%nat). rewrite Nat.add_0_r in Hb. apply Hb. lia. }
      rewrite Hb0. cbn -[word_loop Nat.mul firstn new_events]. fold st2.
      destruct (IH i2 (wp + 1)%nat st2 st' d Hyes) as (s & Es & Hts & Hcs).
      * intros k Hk.
        match goal with
        | |- button_answer env ?n = _ =>
            replace n with (buttons_asked st + S k)%nat by (cbn; lia)
        end.
        apply Hb. lia.
      * match goal with
        | |- button_answer env ?n = _ =>
            replace n with (buttons_asked st + S d)%nat by (cbn; lia)
        end.
        exact Hno.
      * cbn. lia.
      * exists s. split; [exact Es|]. split; [|rewrite Hcs; reflexivity].
        rewrite Hts, Hnew2, Hnew, Ht2.
        match goal with
        | |- context [firstn ?n (shown :: _)] =>
            replace n with (S (S (2 * (d + 1)))) by lia
        end.
        cbn [firstn loop_tail]. rewrite <- !app_assoc. reflexivity.
Qed.


(** X16: a backup stops at the first word that is declined. For a mnemonic
    whose words fit the buffer, when the user confirms [d] requests and
    declines the next one (in the first pass or in the second),
    [reset_backup] has laid out and asked for exactly the first [d + 1]
    words of the two passes: no later word is shown. An inline backup then
    wipes the session. The home screen is laid out, the action-cancelled
    failure is sent, and the store is as the entry check left it: nothing is
    stored, and unfinished_backup is not cleared. *)
Theorem reset_backup_declined (separated : bool) (m : list ascii)
  (st : state) (d : nat) :
  is_c_string m ->
  words_fit m ->
  List.length (current_word st) = sizeof_current_word ->
  (separated = true -> cfg_needs_backup (config st) = true) ->
  (d < 2 * List.length (tokens m))%nat ->
  (forall k, (k < d)%nat -> button_answer env (buttons_asked st + k) = true) ->
  button_answer env (buttons_asked st + d) = false ->
  exists st',
    reset_backup env separated m st = Some st' /\
    new_events st st'
    = entry_events separated
      ++ firstn (2 * (d + 1))
           (word_events 0 1 (tokens m) ++ word_events 1 1 (tokens m))
      ++ (if separated then [] else [SessionClear true])
      ++ [LayoutHome; SendFailure FailureType_Failure_ActionCancelled None] /\
    config st' = config (if separated then backup_entry st else st).
Proof.
  intros Hc Hfit Hcw Hn Hd Hb Hno.
  set (n := List.length (tokens m)) in *.
  set (st1 := if separated then backup_entry st else st).
  assert (H1 : trace st1 = trace st ++ entry_events separated
               /\ current_word st1 = current_word st
               /\ buttons_asked st1 = buttons_asked st).
  { subst st1. unfold entry_events. destruct separated.
    - destruct (backup_entry_spec st) as (Ht & _). rewrite Ht. auto.
    - rewrite app_nil_r. auto. }
  destruct H1 as (Ht1 & Hcw1 & Hb1).
  assert (Hrun : forall r,
            pass_loop env 2 separated m 0 st1 = Some (Return r) ->
            reset_backup env separated m st = Some r).
  { intros r Hr. unfold reset_backup, config_getNeedsBackup.
    destruct separated.
    - rewrite (Hn eq_refl). simpl negb. cbv iota.
      fold (backup_entry st). change (backup_entry st) with st1.
      now rewrite Hr.
    - change st with st1 at 1. now rewrite Hr. }
  assert (HA : List.length (word_events 0 1 (tokens m)) = (2 * n)%nat)
    by apply word_events_length.
  destruct (Nat.lt_ge_cases d n) as [Hlt|Hge].
  - destruct (word_loop_confirmed (always_yes env) separated m 0
                (List.length m) 0 1 st1)
      as (sa & Ea & _ & Hta & Hba & _); auto; [congruence|].
    simpl skipn in *.
    destruct (word_loop_cut separated m 0 (List.length m) 0 1 st1 sa d Ea)
      as (s & Es & Hts & Hcs).
    { intros k Hk. rewrite Hb1. now apply Hb. }
    { now rewrite Hb1. }
    { rewrite Hba. fold n. lia. }
    exists s. split; [|split; [|exact Hcs]].
    + apply Hrun. cbn -[word_loop]. now rewrite Es.
    + apply new_events_app. rewrite Hts, (new_events_app _ _ _ Hta), Ht1.
      rewrite firstn_app, HA.
      replace (2 * (d + 1) - 2 * n)%nat with 0%nat by lia.
      cbn [firstn loop_tail]. rewrite app_nil_r, <- !app_assoc. reflexivity.
  - destruct (word_loop_confirmed env separated m 0 (List.length m) 0 1 st1)
      as (sa & Ea & _ & Hta & Hba & Hcwa); auto; [congruence| |].
    { intros k Hk. rewrite Hb1. apply Hb. simpl skipn in Hk. fold n in Hk. lia. }
    destruct (word_loop_confirmed (always_yes env) separated m 1
                (List.length m) 0 1 sa)
      as (sb & Eb & _ & Htb & Hbb & _); auto.
    simpl skipn in *. fold n in Hba, Hbb.
    destruct (word_loop_cut separated m 1 (List.length m) 0 1 sa sb (d - n) Eb)
      as (s & Es & Hts & Hcs).
    { intros k Hk. rewrite Hba, Hb1, <- Nat.add_assoc. apply Hb. lia. }
    { rewrite Hba, Hb1, <- Nat.add_assoc.
      replace (n + (d - n))%nat with d by lia. exact Hno. }
    { rewrite Hbb. lia. }
    assert (Hca : config sa = config st1).
    { destruct (word_loop_total env separated m 0 (List.length m) 0 1 st1)
        as (r & Er & Hk & _); [lia|].
      rewrite Ea in Er. inversion Er; subst r. now destruct Hk. }
    exists s. split; [|split; [|congruence]].
    + apply Hrun. cbn -[word_loop]. rewrite Ea. cbn -[word_loop].
      now rewrite Es.
    + apply new_events_app. rewrite Hts, (new_events_app _ _ _ Htb), Hta, Ht1.
      rewrite firstn_app, HA.
      rewrite (firstn_all2 (word_events 0 1 (tokens m)))
        by (rewrite HA; lia).
      replace (2 * (d + 1) - 2 * n)%nat with (2 * (d - n + 1))%nat by lia.
      cbn [loop_tail]. rewrite <- !app_assoc. reflexivity.
Qed.


(** X17: a malformed reset request never reaches the user. With a strength
    other than 128, 192 and 256 [reset_init] returns at once: it makes no
    call, sends no reply and leaves the state as it is. With display of the
    entropy asked for together with skip_backup or no_backup it sends the
    process-error failure and lays out the home screen, without any dialog,
    button request or draw from the generator, and without touching the
    store or the pending flag. *)
Theorem reset_init_malformed_request (display_random : bool) (_strength : Z)
  (passphrase_protection pin_protection : bool)
  (language label : option string) (u2f_counter : Z)
  (_skip_backup _no_backup : bool) (st : state) :
  let st' := reset_init env display_random _strength passphrase_protection
               pin_protection language label u2f_counter _skip_backup
               _no_backup st in
  (~ valid_strength _strength -> st' = st)
  /\
  (valid_strength _strength ->
   display_random && (_skip_backup || _no_backup) = true ->
   new_events st st'
   = [SendFailure FailureType_Failure_ProcessError
        (Some "Can't show internal entropy when backup is skipped");
      LayoutHome] /\
   buttons_asked st' = buttons_asked st /\
   random_drawn st' = random_drawn st /\
   int_entropy st' = int_entropy st /\
   config st' = config st /\
   awaiting_entropy st' = awaiting_entropy st).
Proof.
  intros st'. subst st'. split.
  - intros Hv.
    destruct (reset_init_facts display_random _strength passphrase_protection
                pin_protection language label u2f_counter _skip_backup
                _no_backup st)
      as (_ & _ & _ & _ & _ & _ & Hinv & _).
    exact (Hinv Hv).
  - intros Hv. unfold reset_init.
    destruct (negb (_strength =? 128) && negb (_strength =? 192)
              && negb (_strength =? 256)) eqn:V.
    { exfalso. destruct Hv as [-> | [-> | ->]]; discriminate. }
    unfold protectButton, protectChangePin, random_buffer.
    cbn -[firstn skipn map seq data2hex new_events].
    destruct (display_random && (_skip_backup || _no_backup));
      [|discriminate].
    intros _. new_events_norm.
    repeat match goal with |- _ /\ _ => split end; reflexivity.
Qed.

End Calls.

(** * The properties on concrete runs *)

Import Demo.

(** C5, where the code departs from it: the twelve-letter word "abcdefghijkl"
    is not shown once and cut to nine letters. Its first nine letters are
    laid out as word 1, the tenth letter is skipped as if it were the
    separator, and the letters "kl" are laid out as word 2, flagged as the
    last word; the same in the second pass. *)
Theorem reset_backup_splits_long_word :
  option_map (new_events initial_state)
    (reset_backup willing false (text "abcdefghijkl") initial_state)
  = Some
      [LayoutResetWord (text "abcdefghi") 0 1 false;
       ProtectButton ButtonRequestType_ButtonRequest_ConfirmWord true;
       LayoutResetWord (text "kl") 0 2 true;
       ProtectButton ButtonRequestType_ButtonRequest_ConfirmWord true;
       LayoutResetWord (text "abcdefghi") 1 1 false;
       ProtectButton ButtonRequestType_ButtonRequest_ConfirmWord true;
       LayoutResetWord (text "kl") 1 2 true;
       ProtectButton ButtonRequestType_ButtonRequest_ConfirmWord true;
       ConfigSetUnfinishedBackup false; ConfigSetNeedsBackup false;
       ConfigSetMnemonic (text "abcdefghijkl");
       SendSuccess "Device successfully initialized"; LayoutHome].
Proof. vm_compute. reflexivity. Qed.

(** Against C1 as stated: a reset cancelled at the display of the entropy,
    and one cancelled at the PIN set-up, return with the freshly drawn
    entropy in the buffer; a backup cancelled at its first word returns with
    that word in the word buffer. *)
Lemma secret_buffers_left_behind :
  int_entropy
    (reset_init (demo_env (Some 1%nat) true true) true 128 false false
       None None 0 false false initial_state)
  = repeat xa5 32
  /\
  int_entropy
    (reset_init (demo_env None false true) false 128 false true
       None None 0 false false initial_state)
  = repeat xa5 32
  /\
  repeat xa5 32 <> repeat x00 32
  /\
  option_map current_word
    (reset_backup (demo_env (Some 0%nat) true true) false
       (text "zoo wrong") initial_state)
  = Some (text "zoo" ++ repeat NUL 7).
Proof.
  split; [vm_compute; reflexivity|].
  split; [vm_compute; reflexivity|].
  split; [discriminate|].
  vm_compute; reflexivity.
Qed.

(** Against C7 as stated: the two unexpected-message rejections are error
    paths on which the home screen is not laid out. *)
Lemma rejections_skip_home :
  (exists st',
     reset_entropy willing [x01; x02] 2 initial_state = Some st' /\
     trace st' = [SendFailure FailureType_Failure_UnexpectedMessage
                    (Some "Not in Reset mode")] /\
     ~ In LayoutHome (trace st'))
  /\
  (exists st',
     reset_backup willing true (text "zoo wrong") initial_state = Some st' /\
     trace st' = [SendFailure FailureType_Failure_UnexpectedMessage
                    (Some "Seed already backed up")] /\
     ~ In LayoutHome (trace st')).
Proof.
  split; eexists; (split; [vm_compute; reflexivity|]);
    (split; [reflexivity|]); intros [H|[]]; discriminate.
Qed.

(** Against C10 as stated: when the store refuses the empty mnemonic, the
    inline backup reports a process error, not success, and no mnemonic is
    stored. *)
Lemma empty_mnemonic_refused_by_store :
  exists st',
    reset_backup (demo_env None true false) false [] initial_state
    = Some st' /\
    trace st'
    = [ConfigSetUnfinishedBackup false; ConfigSetNeedsBackup false;
       ConfigSetMnemonic [];
       SendFailure FailureType_Failure_ProcessError
         (Some "Failed to store mnemonic");
       LayoutHome] /\
    (forall text, ~ In (SendSuccess text) (trace st')) /\
    cfg_mnemonic (config st') = None.
Proof.
  eexists. split; [vm_compute; reflexivity|].
  split; [reflexivity|]. split; [|reflexivity].
  intros t H. simpl in H. intuition discriminate.
Qed.

(** ** The theorems at concrete inputs *)

Lemma reset_entropy_not_in_reset_mode_witness :
  awaiting_entropy initial_state = false /\
  exists st',
    reset_entropy willing [x01; x02] 2 initial_state = Some st' /\
    new_events initial_state st'
    = [SendFailure FailureType_Failure_UnexpectedMessage
         (Some "Not in Reset mode")] /\
    config st' = config initial_state /\
    keeps_session initial_state st' /\
    current_word st' = current_word initial_state /\
    buttons_asked st' = buttons_asked initial_state /\
    random_drawn st' = random_drawn initial_state /\
    pins_asked st' = pins_asked initial_state.
Proof.
  split; [reflexivity|].
  apply (reset_entropy_not_in_reset_mode willing [x01; x02] 2 initial_state).
  reflexivity.
Defined.

Lemma reset_backup_separated_entry_witness :
  cfg_needs_backup (config initial_state) = false /\
  cfg_needs_backup (config owing_state) = true /\
  (exists st',
     reset_backup willing true (text "zoo wrong") initial_state = Some st' /\
     config st' = config initial_state) /\
  (exists st',
     reset_backup willing true (text "zoo wrong") owing_state = Some st' /\
     cfg_needs_backup (config st') = false).
Proof.
  split; [reflexivity|]. split; [reflexivity|]. split.
  - destruct (proj1 (reset_backup_separated_entry willing (text "zoo wrong")
                       initial_state) eq_refl)
      as (st' & E & _ & Hc & _).
    exists st'. split; assumption.
  - destruct (proj2 (reset_backup_separated_entry willing (text "zoo wrong")
                       owing_state) eq_refl)
      as (st' & evs & E & _ & _ & _ & Hn).
    exists st'. split; assumption.
Defined.

Lemma reset_backup_empty_mnemonic_witness :
  (true = true -> cfg_needs_backup (config owing_state) = true) /\
  exists st',
    reset_backup willing true [] owing_state = Some st' /\
    buttons_asked st' = buttons_asked owing_state /\
    cfg_unfinished_backup (config st') = false.
Proof.
  split; [reflexivity|].
  destruct (reset_backup_empty_mnemonic willing true owing_state
              (fun _ => eq_refl))
    as (st' & E & _ & Hb & Hu & _).
  exists st'. repeat split; assumption.
Defined.

Lemma reset_entropy_dispatch_witness :
  awaiting_entropy awaiting_backup_state = true /\
  skip_backup awaiting_backup_state = false /\
  no_backup awaiting_backup_state = false /\
  exists st',
    reset_entropy willing [x01; x02] 2 awaiting_backup_state = Some st' /\
    cfg_mnemonic (config st')
    = Some (fst (entropy_mixed [x01; x02] 2 awaiting_backup_state)) /\
    cfg_needs_backup (config st') = false /\
    cfg_unfinished_backup (config st') = false.
Proof.
  assert (Ha : awaiting_entropy awaiting_backup_state = true)
    by (vm_compute; reflexivity).
  assert (Hs : skip_backup awaiting_backup_state = false)
    by (vm_compute; reflexivity).
  assert (Hn : no_backup awaiting_backup_state = false)
    by (vm_compute; reflexivity).
  split; [exact Ha|]. split; [exact Hs|]. split; [exact Hn|].
  destruct (proj2 (proj2 (reset_entropy_dispatch willing [x01; x02] 2
                            awaiting_backup_state Ha)) Hs Hn)
    as (st2 & words & _ & E & _ & Hc & _
        & [(_ & Hu & Hnb & _ & Hm & _) | (_ & _ & _ & Hno)]).
  - exists (mnemonic_clear st2). rewrite Hc.
    split; [exact E|]. split; [exact Hm|]. split; [exact Hnb | exact Hu].
  - discriminate Hno.
Defined.

Lemma reset_entropy_mixes_witness :
  awaiting_entropy awaiting_state = true /\
  List.length (int_entropy awaiting_state) = 32%nat /\
  valid_strength (strength awaiting_state) /\
  exists st' evs,
    reset_entropy willing [x01; x02] 2 awaiting_state = Some st' /\
    new_events awaiting_state st'
    = MnemonicFromData
        (firstn 16 (sha256_Raw (int_entropy awaiting_state ++ [x01; x02])))
      :: evs /\
    int_entropy st' = repeat x00 32.
Proof.
  split; [reflexivity|]. split; [reflexivity|].
  split; [left; reflexivity|].
  exact (proj2 (proj2 (proj2 (proj2 (proj2
           (reset_entropy_mixes willing [x01; x02] awaiting_state
              eq_refl eq_refl (or_introl eq_refl))))))).
Defined.

Lemma secret_buffers_on_exit_witness :
  awaiting_entropy awaiting_backup_state = true /\
  (exists st',
     reset_entropy willing [x01; x02] 2 awaiting_backup_state = Some st' /\
     int_entropy st' = repeat x00 32) /\
  valid_strength 128 /\
  button_answer (demo_env (Some 0%nat) true true)
    (buttons_asked initial_state) = false /\
  int_entropy
    (reset_init (demo_env (Some 0%nat) true true) true 128 false true
       None None 0 false false initial_state)
  = int_entropy initial_state.
Proof.
  split; [reflexivity|]. split.
  - exact (proj1 (secret_buffers_on_exit willing) [x01; x02] 2%nat
             awaiting_backup_state eq_refl).
  - split; [left; reflexivity|]. split; [reflexivity|].
    exact (proj1 (proj2 (secret_buffers_on_exit
                           (demo_env (Some 0%nat) true true))
                    true 128 false true None None 0 false false
                    initial_state (or_introl eq_refl) eq_refl)).
Defined.

Lemma error_paths_return_home_witness :
  awaiting_entropy awaiting_backup_state = true /\
  exists st',
    reset_entropy (demo_env (Some 2%nat) true true) [x01; x02] 2
      awaiting_backup_state = Some st' /\
    In LayoutHome (new_events awaiting_backup_state st') /\
    awaiting_entropy st' = false.
Proof.
  split; [reflexivity|].
  exact (proj1 (proj2 (error_paths_return_home
                         (demo_env (Some 2%nat) true true)))
           [x01; x02] 2%nat awaiting_backup_state eq_refl).
Defined.

Lemma reset_backup_two_passes_witness :
  is_c_string (text "abandon zoo wrong") /\
  words_fit (text "abandon zoo wrong") /\
  List.length (current_word initial_state) = sizeof_current_word /\
  exists st',
    reset_backup willing false (text "abandon zoo wrong") initial_state
    = Some st' /\
    new_events initial_state st'
    = word_events 0 1 [text "abandon"; text "zoo"; text "wrong"]
      ++ word_events 1 1 [text "abandon"; text "zoo"; text "wrong"]
      ++ finish_events willing false (text "abandon zoo wrong") /\
    buttons_asked st' = 6%nat.
Proof.
  assert (Hc : is_c_string (text "abandon zoo wrong")).
  { unfold is_c_string. cbn. intuition discriminate. }
  assert (Hf : words_fit (text "abandon zoo wrong")).
  { unfold words_fit, sizeof_current_word. cbn.
    repeat (constructor; [cbn; lia|]). constructor. }
  split; [exact Hc|]. split; [exact Hf|]. split; [reflexivity|].
  exact (reset_backup_two_passes willing false (text "abandon zoo wrong")
           initial_state Hc Hf eq_refl
           (fun H : false = true => False_ind _ (Bool.diff_false_true H))
           (fun k _ => eq_refl)).
Defined.

(** ** The further properties at concrete inputs *)

Lemma reset_init_overwrites_session_witness :
  valid_strength 256 /\
  awaiting_entropy awaiting_state = true /\
  strength awaiting_state = 128 /\
  let st' := reset_init (demo_env (Some 1%nat) true true) false 256 false
               false None None 0 false false awaiting_state in
  strength st' = 256 /\ skip_backup st' = false /\ no_backup st' = false /\
  (awaiting_entropy awaiting_state = true -> awaiting_entropy st' = true).
Proof.
  split; [right; right; reflexivity|].
  split; [vm_compute; reflexivity|]. split; [vm_compute; reflexivity|].
  exact (reset_init_overwrites_session (demo_env (Some 1%nat) true true)
           false 256 false false None None 0 false false awaiting_state
           (or_intror (or_intror eq_refl))).
Defined.

Lemma reset_init_draws_after_confirmation_witness :
  List.length (int_entropy initial_state) = sizeof_int_entropy /\
  creation_confirmed willing false 128 false false initial_state /\
  random_drawn
    (reset_init willing false 128 false false None None 0 false false
       initial_state)
  = (random_drawn initial_state + 32)%nat.
Proof.
  assert (Hl : List.length (int_entropy initial_state) = sizeof_int_entropy)
    by reflexivity.
  assert (Hc : creation_confirmed willing false 128 false false initial_state).
  { repeat split. left; reflexivity. }
  split; [exact Hl|]. split; [exact Hc|].
  exact (proj1 (proj1 (reset_init_draws_after_confirmation willing
                         false 128 false false None None 0 false false
                         initial_state Hl) Hc)).
Defined.

Lemma reset_entropy_only_once_witness :
  awaiting_entropy awaiting_state = true /\
  reset_entropy willing [x01; x02] 2 awaiting_state = Some after_entropy /\
  exists st'',
    reset_entropy willing [x03] 1 after_entropy = Some st'' /\
    new_events after_entropy st''
    = [SendFailure FailureType_Failure_UnexpectedMessage
         (Some "Not in Reset mode")] /\
    config st'' = config after_entropy /\ keeps_session after_entropy st''.
Proof.
  assert (Ha : awaiting_entropy awaiting_state = true)
    by (vm_compute; reflexivity).
  assert (E : reset_entropy willing [x01; x02] 2 awaiting_state
              = Some after_entropy) by (vm_compute; reflexivity).
  split; [exact Ha|]. split; [exact E|].
  exact (reset_entropy_only_once willing [x01; x02] [x03] 2 1 awaiting_state
           after_entropy Ha E).
Defined.

Lemma reset_backup_separated_not_repeatable_witness :
  cfg_needs_backup (config owing_state) = true /\
  reset_backup (demo_env (Some 1%nat) true true) true (text "zoo wrong")
    owing_state = Some after_cancelled_backup /\
  exists st'',
    reset_backup (demo_env (Some 1%nat) true true) true (text "zoo wrong")
      after_cancelled_backup = Some st'' /\
    new_events after_cancelled_backup st''
    = [SendFailure FailureType_Failure_UnexpectedMessage
         (Some "Seed already backed up")] /\
    config st'' = config after_cancelled_backup.
Proof.
  assert (Hn : cfg_needs_backup (config owing_state) = true)
    by (vm_compute; reflexivity).
  assert (E : reset_backup (demo_env (Some 1%nat) true true) true
                (text "zoo wrong") owing_state = Some after_cancelled_backup)
    by (vm_compute; reflexivity).
  split; [exact Hn|]. split; [exact E|].
  exact (reset_backup_separated_not_repeatable
           (demo_env (Some 1%nat) true true) (text "zoo wrong")
           (text "zoo wrong") owing_state after_cancelled_backup Hn E).
Defined.

Lemma reset_backup_shows_pieces_witness :
  List.length (current_word initial_state) = sizeof_current_word /\
  reset_backup willing false (text "zoo wrong") initial_state
  = Some after_inline_backup /\
  In (LayoutResetWord (text "wrong") 1 2 true)
    (new_events initial_state after_inline_backup) /\
  (List.length (text "wrong") <= 9)%nat /\
  ~ In SPACE (text "wrong") /\ ~ In NUL (text "wrong") /\
  piece_of (text "zoo wrong") (text "wrong").
Proof.
  assert (Hl : List.length (current_word initial_state) = sizeof_current_word)
    by reflexivity.
  assert (E : reset_backup willing false (text "zoo wrong") initial_state
              = Some after_inline_backup) by (vm_compute; reflexivity).
  assert (Hin : In (LayoutResetWord (text "wrong") 1 2 true)
                  (new_events initial_state after_inline_backup)).
  { vm_compute. do 6 right. left. reflexivity. }
  split; [exact Hl|]. split; [exact E|]. split; [exact Hin|].
  exact (reset_backup_shows_pieces willing false (text "zoo wrong")
           initial_state after_inline_backup (text "wrong") 1 2 true
           Hl E Hin).
Defined.

Lemma reset_get_word_is_last_shown_witness :
  List.length (current_word owing_state) = sizeof_current_word /\
  reset_backup (demo_env (Some 1%nat) true true) true (text "zoo wrong")
    owing_state = Some after_cancelled_backup /\
  match last_shown (new_events owing_state after_cancelled_backup) with
  | Some w => c_str (reset_get_word after_cancelled_backup) = w
  | None => reset_get_word after_cancelled_backup = current_word owing_state
  end.
Proof.
  assert (Hl : List.length (current_word owing_state) = sizeof_current_word)
    by (vm_compute; reflexivity).
  assert (E : reset_backup (demo_env (Some 1%nat) true true) true
                (text "zoo wrong") owing_state = Some after_cancelled_backup)
    by (vm_compute; reflexivity).
  split; [exact Hl|]. split; [exact E|].
  exact (reset_get_word_is_last_shown (demo_env (Some 1%nat) true true) true
           (text "zoo wrong") owing_state after_cancelled_backup Hl E).
Defined.

Lemma reset_backup_replies_once_witness :
  List.length (current_word owing_state) = sizeof_current_word /\
  reset_backup (demo_env (Some 1%nat) true true) true (text "zoo wrong")
    owing_state = Some after_cancelled_backup /\
  List.length
    (filter is_reply (new_events owing_state after_cancelled_backup))
  = 1%nat.
Proof.
  assert (Hl : List.length (current_word owing_state) = sizeof_current_word)
    by (vm_compute; reflexivity).
  assert (E : reset_backup (demo_env (Some 1%nat) true true) true
                (text "zoo wrong") owing_state = Some after_cancelled_backup)
    by (vm_compute; reflexivity).
  split; [exact Hl|]. split; [exact E|].
  exact (reset_backup_replies_once (demo_env (Some 1%nat) true true) true
           (text "zoo wrong") owing_state after_cancelled_backup Hl E).
Defined.

Lemma reset_backup_inline_reply_tells_store_witness :
  List.length (current_word initial_state) = sizeof_current_word /\
  reset_backup willing false (text "zoo wrong") initial_state
  = Some after_inline_backup /\
  In (SendSuccess "Device successfully initialized")
    (new_events initial_state after_inline_backup) /\
  cfg_mnemonic (config after_inline_backup) = Some (text "zoo wrong").
Proof.
  assert (Hl : List.length (current_word initial_state) = sizeof_current_word)
    by reflexivity.
  assert (E : reset_backup willing false (text "zoo wrong") initial_state
              = Some after_inline_backup) by (vm_compute; reflexivity).
  assert (Hin : In (SendSuccess "Device successfully initialized")
                  (new_events initial_state after_inline_backup)).
  { vm_compute. do 11 right. left. reflexivity. }
  split; [exact Hl|]. split; [exact E|]. split; [exact Hin|].
  exact (proj1 (proj2 (proj1 (reset_backup_inline_reply_tells_store willing
                                (text "zoo wrong") initial_state
                                after_inline_backup Hl E)
                         _ Hin))).
Defined.

Lemma reset_backup_separated_frame_witness :
  List.length (current_word owing_state) = sizeof_current_word /\
  reset_backup (demo_env (Some 1%nat) true true) true (text "zoo wrong")
    owing_state = Some after_cancelled_backup /\
  cfg_mnemonic (config after_cancelled_backup)
  = cfg_mnemonic (config owing_state).
Proof.
  assert (Hl : List.length (current_word owing_state) = sizeof_current_word)
    by (vm_compute; reflexivity).
  assert (E : reset_backup (demo_env (Some 1%nat) true true) true
                (text "zoo wrong") owing_state = Some after_cancelled_backup)
    by (vm_compute; reflexivity).
  split; [exact Hl|]. split; [exact E|].
  exact (proj1 (reset_backup_separated_frame (demo_env (Some 1%nat) true true)
                  (text "zoo wrong") owing_state after_cancelled_backup
                  Hl E)).
Defined.

Lemma reset_entropy_replies_once_witness :
  List.length (current_word awaiting_state) = sizeof_current_word /\
  reset_entropy willing [x01; x02] 2 awaiting_state = Some after_entropy /\
  List.length (filter is_reply (new_events awaiting_state after_entropy))
  = 1%nat.
Proof.
  assert (Hl : List.length (current_word awaiting_state) = sizeof_current_word)
    by (vm_compute; reflexivity).
  assert (E : reset_entropy willing [x01; x02] 2 awaiting_state
              = Some after_entropy) by (vm_compute; reflexivity).
  split; [exact Hl|]. split; [exact E|].
  exact (reset_entropy_replies_once willing [x01; x02] 2 awaiting_state
           after_entropy Hl E).
Defined.

Lemma shown_entropy_is_mixed_witness :
  List.length (int_entropy initial_state) = sizeof_int_entropy /\
  gates_passed willing true 128 false false false initial_state /\
  In (LayoutDialogSwipe bmp_icon_info "Cancel" "Continue" None
        [Some "Internal entropy:";
         Some (data2hex (firstn 8 (drawn willing (random_drawn initial_state) 32)));
         Some (data2hex
                 (firstn 8 (skipn 8 (drawn willing (random_drawn initial_state) 32))));
         Some (data2hex
                 (firstn 8 (skipn 16 (drawn willing (random_drawn initial_state) 32))));
         Some (data2hex
                 (firstn 8 (skipn 24 (drawn willing (random_drawn initial_state) 32))));
         None])
     (new_events initial_state
        (reset_init willing true 128 false false None None 0 false false
           initial_state)).
Proof.
  assert (Hl : List.length (int_entropy initial_state) = sizeof_int_entropy)
    by reflexivity.
  assert (Hg : gates_passed willing true 128 false false false initial_state).
  { unfold gates_passed. split; [left; reflexivity|].
    split; [reflexivity|]. split; [reflexivity|].
    split; intros _; reflexivity. }
  split; [exact Hl|]. split; [exact Hg|].
  exact (proj1 (shown_entropy_is_mixed willing 128 false false None None 0
                  false false initial_state [x01; x02] Hl Hg)).
Defined.

Lemma reset_without_backup_end_to_end_witness :
  List.length (int_entropy initial_state) = sizeof_int_entropy /\
  gates_passed willing false 128 false true false initial_state /\
  true || false = true /\
  exists st2,
    reset_entropy willing [x01; x02] (List.length [x01; x02]) awaiting_state
    = Some st2 /\
    cfg_needs_backup (config st2) = true /\
    awaiting_entropy st2 = false.
Proof.
  assert (Hl : List.length (int_entropy initial_state) = sizeof_int_entropy)
    by reflexivity.
  assert (Hg : gates_passed willing false 128 false true false initial_state).
  { unfold gates_passed. split; [left; reflexivity|].
    split; [reflexivity|]. split; [reflexivity|].
    split; intros H; [discriminate H | reflexivity]. }
  split; [exact Hl|]. split; [exact Hg|]. split; [reflexivity|].
  destruct (reset_without_backup_end_to_end willing false 128 false false
              None None 0 true false initial_state [x01; x02] Hl Hg eq_refl)
    as (st2 & E & _ & _ & _ & Hn & _ & _ & Ha & _).
  exists st2. split; [exact E|]. split; [exact Hn | exact Ha].
Defined.

Lemma reset_with_backup_end_to_end_witness :
  well_formed initial_state /\
  gates_passed willing false 128 false false false initial_state /\
  exists st2,
    reset_entropy willing [x01; x02] (List.length [x01; x02])
      awaiting_backup_state = Some st2 /\
    cfg_needs_backup (config st2) = false /\
    cfg_unfinished_backup (config st2) = false /\
    awaiting_entropy st2 = false.
Proof.
  assert (Hw : well_formed initial_state).
  { repeat split. discriminate. }
  assert (Hg : gates_passed willing false 128 false false false initial_state).
  { unfold gates_passed. split; [left; reflexivity|].
    split; [reflexivity|]. split; [reflexivity|].
    split; intros H; [discriminate H | reflexivity]. }
  split; [exact Hw|]. split; [exact Hg|].
  destruct (reset_with_backup_end_to_end willing false 128 false false
              None None 0 initial_state [x01; x02] Hw Hg)
    as (st2 & E & _ & _ & Hn & Hu & Ha & _).
  - apply is_c_string_test. vm_compute. reflexivity.
  - apply words_fit_test. vm_compute. reflexivity.
  - intros k _. reflexivity.
  - exists st2. split; [exact E|]. split; [exact Hn|].
    split; [exact Hu | exact Ha].
Defined.

Lemma reachable_states_witness :
  reachable willing after_entropy /\
  well_formed after_entropy /\
  Forall entropy_length_ok (trace after_entropy).
Proof.
  assert (E : reset_entropy willing [x01; x02] (List.length [x01; x02])
                awaiting_state = Some after_entropy)
    by (vm_compute; reflexivity).
  assert (Hr : reachable willing after_entropy).
  { apply (reachable_entropy willing [x01; x02] awaiting_state after_entropy);
      [|exact E].
    apply reachable_init. apply reachable_initial. }
  split; [exact Hr|].
  exact (reachable_states willing after_entropy Hr).
Defined.

Lemma reset_backup_declined_witness :
  is_c_string (text "zoo wrong") /\
  words_fit (text "zoo wrong") /\
  List.length (current_word owing_state) = sizeof_current_word /\
  (1 < 2 * List.length (tokens (text "zoo wrong")))%nat /\
  button_answer (demo_env (Some 1%nat) true true) (buttons_asked owing_state + 1)
  = false /\
  exists st',
    reset_backup (demo_env (Some 1%nat) true true) true (text "zoo wrong")
      owing_state = Some st' /\
    new_events owing_state st'
    = entry_events true
      ++ firstn (2 * (1 + 1))
           (word_events 0 1 (tokens (text "zoo wrong"))
            ++ word_events 1 1 (tokens (text "zoo wrong")))
      ++ [] ++ [LayoutHome;
                SendFailure FailureType_Failure_ActionCancelled None] /\
    config st' = config (backup_entry owing_state).
Proof.
  assert (Hc : is_c_string (text "zoo wrong")).
  { apply is_c_string_test. vm_compute. reflexivity. }
  assert (Hf : words_fit (text "zoo wrong")).
  { apply words_fit_test. vm_compute. reflexivity. }
  assert (Hl : List.length (current_word owing_state) = sizeof_current_word)
    by (vm_compute; reflexivity).
  assert (Hd : (1 < 2 * List.length (tokens (text "zoo wrong")))%nat).
  { vm_compute. repeat constructor. }
  assert (Hno : button_answer (demo_env (Some 1%nat) true true)
                  (buttons_asked owing_state + 1) = false)
    by (vm_compute; reflexivity).
  split; [exact Hc|]. split; [exact Hf|]. split; [exact Hl|].
  split; [exact Hd|]. split; [exact Hno|].
  apply (reset_backup_declined (demo_env (Some 1%nat) true true) true
           (text "zoo wrong") owing_state 1 Hc Hf Hl (fun _ => eq_refl) Hd).
  - intros k Hk. assert (k = 0%nat) by lia. subst k. vm_compute. reflexivity.
  - exact Hno.
Defined.

Lemma reset_init_malformed_request_witness :
  valid_strength 192 /\
  true && (true || false) = true /\
  new_events initial_state
    (reset_init willing true 192 false false None None 0 true false
       initial_state)
  = [SendFailure FailureType_Failure_ProcessError
       (Some "Can't show internal entropy when backup is skipped");
     LayoutHome].
Proof.
  assert (Hv : valid_strength 192) by (right; left; reflexivity).
  split; [exact Hv|]. split; [reflexivity|].
  exact (proj1 (proj2 (reset_init_malformed_request willing true 192 false
                         false None None 0 true false initial_state)
                  Hv eq_refl)).
Defined.
